(** * Prime checking with two queues: the multiprocessing notebook

    A shallow embedding of the prime-checking cells of the
    multiprocessing notebook: the serial [check_prime], the queue worker
    [check_prime(possible_primes_queue, definite_primes_queue)] and the
    coordinator script that fills the work queue, sends the stop flags
    and drains the result queue; and, further down, of the [Pool]
    version of the prime cell, of the Monte Carlo estimate of pi and of
    the Python [fib] of the Cython notebook.

    Python integers are [Z]; [%] with a positive modulus is [Z.modulo];
    a [bytes] literal is a [string].  [int(math.sqrt(n))] is embedded
    with its double-precision arithmetic: the conversion of [n] to a
    [float] rounds to 53 significant bits and raises [OverflowError]
    beyond the range of a double, [math.sqrt] raises [ValueError] for a
    negative argument and otherwise returns the correctly rounded square
    root, and [int] truncates it. *)

From Stdlib Require Import ZArith String Lia Sorted.
From Stdlib Require Uint63.
From stdpp Require Import base list.

Local Open Scope Z_scope.

(** ** Python values carried by the queues *)

Inductive pyobj : Type :=
| PyInt (n : Z)
| PyBytes (b : string).

(** [==] of Python on these values: an [int] never equals a [bytes]. *)
Definition py_eq (x y : pyobj) : bool :=
  match x, y with
  | PyInt a, PyInt b => a =? b
  | PyBytes a, PyBytes b => String.eqb a b
  | _, _ => false
  end.

Definition FLAG_ALL_DONE : pyobj := PyBytes "WORK_FINISHED".
Definition FLAG_WORKER_FINISHED_PROCESSING : pyobj :=
  PyBytes "WORKER_FINISHED_PROCESSING".

Inductive exn : Type := ValueError | AssertionError | OverflowError.

Inductive result (A : Type) : Type :=
| Ok (a : A)
| Raise (e : exn).
Arguments Ok {A} a.
Arguments Raise {A} e.

(** ** [range] and [int(math.sqrt(n))] *)

(** [range(start, stop, step)] for a positive [step]. *)
Fixpoint range_from (len : nat) (start step : Z) : list Z :=
  match len with
  | O => []
  | S len' => start :: range_from len' (start + step) step
  end.

Definition py_range (start stop step : Z) : list Z :=
  range_from (Z.to_nat ((stop - start + step - 1) / step)) start step.

(** [range(lo, hi)]. *)
Definition number_range (lo hi : Z) : list Z := py_range lo hi 1.

(** The conversion of a non-negative Python [int] to a [float], which
    [math.sqrt] applies to its argument: round to nearest, ties to even,
    on 53 significant bits; [OverflowError] when the rounded value does
    not fit a double.  The double is given by its value, an integer here. *)
Definition float_of_int (n : Z) : result Z :=
  if n <? 2 ^ 53 then Ok n
  else
    let shift := Z.log2 n - 52 in
    let q := n / 2 ^ shift in
    let r := n mod 2 ^ shift in
    let half := 2 ^ (shift - 1) in
    let q' :=
      if orb (half <? r) (andb (r =? half) (Z.odd q)) then q + 1 else q in
    if 2 ^ 1024 <=? q' * 2 ^ shift then Raise OverflowError
    else Ok (q' * 2 ^ shift).

(** [int(sqrt(x))] for a double [x] with a non-negative integer value:
    the square root is rounded to the nearest double, then truncated.
    With [s] the integer square root, the exact root lies in [[s, s+1)];
    when [s] has fewer than 53 bits the doubles there are [1 / 2^(53-bits)]
    apart and the rounded root reaches [s + 1] when the exact one is
    nearer to it than to the double before it; from 53 bits on the doubles
    are the multiples of [2^(bits-53)]. *)
Definition sqrt_floor (x : Z) : Z :=
  let s := Z.sqrt x in
  if s =? 0 then 0
  else
    let bits := Z.log2 s + 1 in
    if bits <? 53 then
      let h := 2 ^ (54 - bits) in
      if ((s + 1) * h - 1) ^ 2 <? x * h ^ 2 then s + 1 else s
    else
      let ulp := 2 ^ (bits - 53) in
      let lower := s / ulp * ulp in
      if (2 * lower + ulp) ^ 2 <? 4 * x then lower + ulp else lower.

(** [int(math.sqrt(n))]: the argument is converted first, so a negative
    [n] too large for a double raises [OverflowError], any other negative
    [n] raises [ValueError]. *)
Definition int_math_sqrt (n : Z) : result Z :=
  match float_of_int (Z.abs n) with
  | Raise e => Raise e
  | Ok x => if n <? 0 then Raise ValueError else Ok (sqrt_floor x)
  end.

(** ** The serial prime checker *)

(** The loop [for i in ...: if n % i == 0: return False]; [true] when the
    loop is left through the [return] (or [break]). *)
Fixpoint divisor_found (n : Z) (candidates : list Z) : bool :=
  match candidates with
  | [] => false
  | i :: rest => if n mod i =? 0 then true else divisor_found n rest
  end.

Definition check_prime (n : Z) : result bool :=
  if n mod 2 =? 0 then Ok false
  else match int_math_sqrt n with
       | Raise e => Raise e
       | Ok r =>
           if divisor_found n (py_range 3 (r + 1) 2) then Ok false
           else Ok true
       end.

(** The serial cell: [for possible_prime in number_range: if
    check_prime(possible_prime): primes.append(possible_prime)]. *)
Fixpoint serial_loop (todo : list Z) (primes : list Z) : result (list Z) :=
  match todo with
  | [] => Ok primes
  | possible_prime :: rest =>
      match check_prime possible_prime with
      | Raise e => Raise e
      | Ok true => serial_loop rest (primes ++ [possible_prime])
      | Ok false => serial_loop rest primes
      end
  end.

Definition serial_primes (lo hi : Z) : result (list Z) :=
  serial_loop (number_range lo hi) [].

(** No divisor among the numbers the loop tries: the odd numbers from 3 up to the integer
    square root. *)
Definition no_odd_divisor (n : Z) : Prop :=
  forall d, 3 <= d <= Z.sqrt n -> Z.odd d = true -> n mod d <> 0.

(** ** The queue worker: one pass through the body of [while True] *)

Inductive action : Type :=
| PutAndBreak (flag : pyobj)   (* put the finished flag, leave the loop *)
| Put (x : pyobj)              (* the [else] of the [for]: put n *)
| Continue                     (* [continue] or [break] of the [for] *)
| Crash.                       (* an exception ends the process *)

(** What the worker does with the value [n] it got from the queue.  A
    [bytes] value other than the flag makes [n % 2] or [math.sqrt(n)]
    raise. *)
Definition worker_body (n : pyobj) : action :=
  if py_eq n FLAG_ALL_DONE then PutAndBreak FLAG_WORKER_FINISHED_PROCESSING
  else match n with
       | PyBytes _ => Crash
       | PyInt z =>
           if z mod 2 =? 0 then Continue
           else match int_math_sqrt z with
                | Raise _ => Crash
                | Ok r =>
                    if divisor_found z (py_range 3 (r + 1) 2) then Continue
                    else Put n
                end
       end.

(** ** The two queues, the worker processes and the main script *)

Inductive queue : Type := possible_primes_queue | definite_primes_queue.

(** What happens on the queues, in the order it happens. *)
Inductive event : Type :=
| Created (q : queue)
| PutEv (q : queue) (x : pyobj)
| GetEv (q : queue) (x : pyobj).

(** A worker process is either blocked in (or about to call)
    [possible_primes_queue.get()], or holds the value it got and has not
    yet acted on it, or has left its loop, or has died of an exception. *)
Inductive wstate : Type :=
| WGet
| WGot (n : pyobj)
| WDone
| WCrashed.

(** The main script after the processes are started: the loop that puts
    the candidates, the loop that puts one flag per process, the loop that
    drains the results, the [assert] after it, and the end. *)
Inductive cstate : Type :=
| CFill (todo : list Z)
| CStops (remaining : nat)
| CDrain (finished : nat) (primes : list pyobj)
| CAssert (finished : nat) (primes : list pyobj)
| CComplete (finished : nat) (primes : list pyobj)
| CRaised (e : exn).

Record state : Type := State {
  possible : list pyobj;     (* possible_primes_queue, next to get first *)
  definite : list pyobj;     (* definite_primes_queue *)
  processes : list wstate;   (* the started Process objects *)
  main : cstate;
  trace : list event
}.

(** The script up to the first [put]: the two queues are created, then
    [Pool(processes=NBR_PROCESSES)], which raises [ValueError] for a
    number of processes below one, then the processes are started; each
    one blocks on the empty queue. *)
Definition start (lo hi : Z) (NBR_PROCESSES : nat) : state :=
  {| possible := [];
     definite := [];
     processes := match NBR_PROCESSES with
                  | O => []
                  | S _ => repeat WGet NBR_PROCESSES
                  end;
     main := match NBR_PROCESSES with
             | O => CRaised ValueError
             | S _ => CFill (number_range lo hi)
             end;
     trace := [Created possible_primes_queue; Created definite_primes_queue] |}.

Definition put_possible (x : pyobj) (c : cstate) (s : state) : state :=
  {| possible := possible s ++ [x];
     definite := definite s;
     processes := processes s;
     main := c;
     trace := trace s ++ [PutEv possible_primes_queue x] |}.

Definition goto (c : cstate) (s : state) : state :=
  {| possible := possible s;
     definite := definite s;
     processes := processes s;
     main := c;
     trace := trace s |}.

Definition got_definite (x : pyobj) (rest : list pyobj) (c : cstate)
    (s : state) : state :=
  {| possible := possible s;
     definite := rest;
     processes := processes s;
     main := c;
     trace := trace s ++ [GetEv definite_primes_queue x] |}.

(** One step of the main script. [None]: blocked in
    [definite_primes_queue.get()], or finished. *)
Definition main_step (NBR_PROCESSES : nat) (s : state) : option state :=
  match main s with
  | CFill [] => Some (goto (CStops NBR_PROCESSES) s)
  | CFill (possible_prime :: todo) =>
      Some (put_possible (PyInt possible_prime) (CFill todo) s)
  | CStops O => Some (goto (CDrain 0 []) s)
  | CStops (S remaining) =>
      Some (put_possible FLAG_ALL_DONE (CStops remaining) s)
  | CDrain finished primes =>
      match definite s with
      | [] => None
      | new_result :: rest =>
          if py_eq new_result FLAG_WORKER_FINISHED_PROCESSING then
            if (S finished =? NBR_PROCESSES)%nat
            then Some (got_definite new_result rest (CAssert (S finished) primes) s)
            else Some (got_definite new_result rest (CDrain (S finished) primes) s)
          else
            Some (got_definite new_result rest
                    (CDrain finished (primes ++ [new_result])) s)
      end
  | CAssert finished primes =>
      if (finished =? NBR_PROCESSES)%nat
      then Some (goto (CComplete finished primes) s)
      else Some (goto (CRaised AssertionError) s)
  | CComplete _ _ => None
  | CRaised _ => None
  end.

Definition got_possible (i : nat) (n : pyobj) (rest : list pyobj)
    (s : state) : state :=
  {| possible := rest;
     definite := definite s;
     processes := <[i := WGot n]> (processes s);
     main := main s;
     trace := trace s ++ [GetEv possible_primes_queue n] |}.

Definition put_definite (i : nat) (x : pyobj) (w : wstate) (s : state) : state :=
  {| possible := possible s;
     definite := definite s ++ [x];
     processes := <[i := w]> (processes s);
     main := main s;
     trace := trace s ++ [PutEv definite_primes_queue x] |}.

Definition become (i : nat) (w : wstate) (s : state) : state :=
  {| possible := possible s;
     definite := definite s;
     processes := <[i := w]> (processes s);
     main := main s;
     trace := trace s |}.

(** One step of worker [i]. [None]: blocked in
    [possible_primes_queue.get()], or no longer running. *)
Definition worker_step (i : nat) (s : state) : option state :=
  match processes s !! i with
  | Some WGet =>
      match possible s with
      | [] => None
      | n :: rest => Some (got_possible i n rest s)
      end
  | Some (WGot n) =>
      match worker_body n with
      | PutAndBreak flag => Some (put_definite i flag WDone s)
      | Put x => Some (put_definite i x WGet s)
      | Continue => Some (become i WGet s)
      | Crash => Some (become i WCrashed s)
      end
  | Some WDone => None
  | Some WCrashed => None
  | None => None
  end.

(** The processes run concurrently: a run is any sequence of steps of
    the main script and of the workers. *)
Inductive actor : Type := Main | Worker (i : nat).

Definition step (NBR_PROCESSES : nat) (a : actor) (s : state) : option state :=
  match a with
  | Main => main_step NBR_PROCESSES s
  | Worker i => worker_step i s
  end.

Fixpoint run (NBR_PROCESSES : nat) (schedule : list actor) (s : state)
  : option state :=
  match schedule with
  | [] => Some s
  | a :: rest =>
      match step NBR_PROCESSES a s with
      | Some s' => run NBR_PROCESSES rest s'
      | None => None
      end
  end.

Definition reachable (lo hi : Z) (NBR_PROCESSES : nat) (s : state) : Prop :=
  exists schedule, run NBR_PROCESSES schedule (start lo hi NBR_PROCESSES) = Some s.

(** No process can take a step. *)
Definition stuck (NBR_PROCESSES : nat) (s : state) : Prop :=
  forall a, step NBR_PROCESSES a s = None.

(** A scheduling policy, to build concrete runs: always the first actor of
    [priority] that can take a step. *)
Definition can_step (NBR_PROCESSES : nat) (s : state) (a : actor) : bool :=
  match step NBR_PROCESSES a s with Some _ => true | None => false end.

Fixpoint schedule_by (NBR_PROCESSES : nat) (priority : list actor)
    (fuel : nat) (s : state) : list actor :=
  match fuel with
  | O => []
  | S fuel' =>
      match List.find (can_step NBR_PROCESSES s) priority with
      | None => []
      | Some a =>
          match step NBR_PROCESSES a s with
          | Some s' => a :: schedule_by NBR_PROCESSES priority fuel' s'
          | None => []
          end
      end
  end.


Definition overtaking : list actor :=
  [Main; Main; Main; Main; Main; Main; Main;
   Worker 0; Worker 1; Worker 1; Worker 1; Worker 1; Worker 0;
   Worker 0; Worker 0; Worker 1; Worker 1;
   Main; Main; Main; Main; Main].

(** ** Quantities the invariants speak about *)

Definition countb {A : Type} (f : A -> bool) (l : list A) : nat :=
  length (List.filter f l).

Definition is_flag (flag x : pyobj) : bool := py_eq x flag.

Definition holds (w : wstate) : list pyobj :=
  match w with WGot n => [n] | _ => [] end.

(** The values the workers got and have not yet acted on. *)
Definition held (ws : list wstate) : list pyobj := flat_map holds ws.

Definition is_done (w : wstate) : bool :=
  match w with WDone => true | _ => false end.

Definition is_crashed (w : wstate) : bool :=
  match w with WCrashed => true | _ => false end.

(** The values a worker puts on the result queue when it gets them. *)
Definition pushes (x : pyobj) : bool :=
  match worker_body x with Put _ => true | _ => false end.

Definition crashes (x : pyobj) : bool :=
  match worker_body x with Crash => true | _ => false end.

Definition todo_of (c : cstate) : list Z :=
  match c with CFill todo => todo | _ => [] end.

Definition stops_left (NBR_PROCESSES : nat) (c : cstate) : nat :=
  match c with
  | CFill _ => NBR_PROCESSES
  | CStops remaining => remaining
  | _ => 0
  end.

Definition finished_of (c : cstate) : nat :=
  match c with
  | CDrain f _ | CAssert f _ | CComplete f _ => f
  | _ => 0
  end.

Definition primes_of (c : cstate) : list pyobj :=
  match c with
  | CDrain _ p | CAssert _ p | CComplete _ p => p
  | _ => []
  end.

(** The values put on the work queue so far, oldest first. *)
Definition work_puts (t : list event) : list pyobj :=
  flat_map (fun e => match e with
                     | PutEv possible_primes_queue x => [x]
                     | _ => []
                     end) t.

(** Puts and gets, on either queue. *)
Definition queue_ops (t : list event) : list event :=
  List.filter (fun e => match e with Created _ => false | _ => true end) t.

(** The number of steps a run can still take. *)
Definition fuel_of_main (NBR_PROCESSES : nat) (c : cstate) : nat :=
  match c with
  | CFill todo => 4 * length todo + 4 * NBR_PROCESSES + 3
  | CStops remaining => 4 * remaining + 2
  | CDrain _ _ => 1
  | CAssert _ _ => 1
  | CComplete _ _ => 0
  | CRaised _ => 0
  end.

Definition fuel_of (NBR_PROCESSES : nat) (s : state) : nat :=
  fuel_of_main NBR_PROCESSES (main s) + 3 * length (possible s)
  + 2 * length (held (processes s)) + length (definite s).

(** ** The steps as a relation

    The same steps as [step], one rule per branch of the code, with the
    list of processes split around the worker that moves. *)

Inductive transition (NBR_PROCESSES : nat) : state -> state -> Prop :=
| t_fill_end P D ws t :
    transition NBR_PROCESSES
      (State P D ws (CFill []) t)
      (State P D ws (CStops NBR_PROCESSES) t)
| t_fill_put P D ws t p todo :
    transition NBR_PROCESSES
      (State P D ws (CFill (p :: todo)) t)
      (State (P ++ [PyInt p]) D ws (CFill todo)
             (t ++ [PutEv possible_primes_queue (PyInt p)]))
| t_stops_end P D ws t :
    transition NBR_PROCESSES
      (State P D ws (CStops 0) t)
      (State P D ws (CDrain 0 []) t)
| t_stops_put P D ws t k :
    transition NBR_PROCESSES
      (State P D ws (CStops (S k)) t)
      (State (P ++ [FLAG_ALL_DONE]) D ws (CStops k)
             (t ++ [PutEv possible_primes_queue FLAG_ALL_DONE]))
| t_drain_flag P D ws t x f primes :
    py_eq x FLAG_WORKER_FINISHED_PROCESSING = true ->
    S f <> NBR_PROCESSES ->
    transition NBR_PROCESSES
      (State P (x :: D) ws (CDrain f primes) t)
      (State P D ws (CDrain (S f) primes)
             (t ++ [GetEv definite_primes_queue x]))
| t_drain_last P D ws t x f primes :
    py_eq x FLAG_WORKER_FINISHED_PROCESSING = true ->
    S f = NBR_PROCESSES ->
    transition NBR_PROCESSES
      (State P (x :: D) ws (CDrain f primes) t)
      (State P D ws (CAssert (S f) primes)
             (t ++ [GetEv definite_primes_queue x]))
| t_drain_prime P D ws t x f primes :
    py_eq x FLAG_WORKER_FINISHED_PROCESSING = false ->
    transition NBR_PROCESSES
      (State P (x :: D) ws (CDrain f primes) t)
      (State P D ws (CDrain f (primes ++ [x]))
             (t ++ [GetEv definite_primes_queue x]))
| t_assert_ok P D ws t f primes :
    f = NBR_PROCESSES ->
    transition NBR_PROCESSES
      (State P D ws (CAssert f primes) t)
      (State P D ws (CComplete f primes) t)
| t_assert_fail P D ws t f primes :
    f <> NBR_PROCESSES ->
    transition NBR_PROCESSES
      (State P D ws (CAssert f primes) t)
      (State P D ws (CRaised AssertionError) t)
| t_get P D l1 l2 c t n :
    transition NBR_PROCESSES
      (State (n :: P) D (l1 ++ WGet :: l2) c t)
      (State P D (l1 ++ WGot n :: l2) c
             (t ++ [GetEv possible_primes_queue n]))
| t_break P D l1 l2 c t n flag :
    worker_body n = PutAndBreak flag ->
    transition NBR_PROCESSES
      (State P D (l1 ++ WGot n :: l2) c t)
      (State P (D ++ [flag]) (l1 ++ WDone :: l2) c
             (t ++ [PutEv definite_primes_queue flag]))
| t_put P D l1 l2 c t n x :
    worker_body n = Put x ->
    transition NBR_PROCESSES
      (State P D (l1 ++ WGot n :: l2) c t)
      (State P (D ++ [x]) (l1 ++ WGet :: l2) c
             (t ++ [PutEv definite_primes_queue x]))
| t_continue P D l1 l2 c t n :
    worker_body n = Continue ->
    transition NBR_PROCESSES
      (State P D (l1 ++ WGot n :: l2) c t)
      (State P D (l1 ++ WGet :: l2) c t)
| t_crash P D l1 l2 c t n :
    worker_body n = Crash ->
    transition NBR_PROCESSES
      (State P D (l1 ++ WGot n :: l2) c t)
      (State P D (l1 ++ WCrashed :: l2) c t).

(** ** The invariant of the pipeline *)

Definition pyobj_eq_dec (x y : pyobj) : {x = y} + {x <> y}.
Proof.
  decide equality; [apply Z.eq_dec | apply String.string_dec].
Defined.

Definition not_finished_flag (x : pyobj) : bool :=
  negb (is_flag FLAG_WORKER_FINISHED_PROCESSING x).

(** The values got from the work queue so far, oldest first. *)
Definition work_gets (t : list event) : list pyobj :=
  flat_map (fun e => match e with
                     | GetEv possible_primes_queue x => [x]
                     | _ => []
                     end) t.

Definition control_ok (NBR_PROCESSES : nat) (c : cstate) : Prop :=
  match c with
  | CFill _ => True
  | CStops k => (k <= NBR_PROCESSES)%nat
  | CDrain f _ => (f < NBR_PROCESSES)%nat
  | CAssert f _ => f = NBR_PROCESSES
  | CComplete f _ => f = NBR_PROCESSES
  | CRaised _ => False
  end.

Record invariant (lo hi : Z) (NBR_PROCESSES : nat) (s : state) : Prop := {
  (* one process per unit of NBR_PROCESSES, and the script is where its
     counters allow *)
  inv_len : length (processes s) = NBR_PROCESSES;
  inv_ctl : control_ok NBR_PROCESSES (main s);
  (* every stop flag is still to be put, or in the queue, or in the hands
     of a worker, or has ended a worker *)
  inv_stops :
    (stops_left NBR_PROCESSES (main s)
     + countb (is_flag FLAG_ALL_DONE) (possible s)
     + countb (is_flag FLAG_ALL_DONE) (held (processes s))
     + countb is_done (processes s))%nat = NBR_PROCESSES;
  (* every worker that ended has put one finished flag *)
  inv_done :
    countb is_done (processes s)
    = (finished_of (main s)
       + countb (is_flag FLAG_WORKER_FINISHED_PROCESSING) (definite s))%nat;
  (* the work queue: candidates, then stop flags *)
  inv_shape :
    exists cs k,
      possible s = List.map PyInt cs ++ repeat FLAG_ALL_DONE k
      /\ (cs <> [] ->
          (countb (is_flag FLAG_ALL_DONE) (held (processes s))
           + countb is_done (processes s))%nat = 0%nat);
  (* once all workers have ended, a finished flag closes the result queue *)
  inv_tail :
    countb is_done (processes s) = length (processes s) ->
    definite s = [] \/ last (definite s) = Some FLAG_WORKER_FINISHED_PROCESSING;
  (* no prime is lost or made up *)
  inv_perm :
    Permutation
      (primes_of (main s)
       ++ List.filter not_finished_flag (definite s)
       ++ List.filter pushes (List.map PyInt (todo_of (main s)))
       ++ List.filter pushes (possible s)
       ++ List.filter pushes (held (processes s)))
      (List.filter pushes (List.map PyInt (number_range lo hi)));
  (* the puts on the work queue follow the script *)
  inv_trace :
    work_puts (trace s) ++ List.map PyInt (todo_of (main s))
    ++ repeat FLAG_ALL_DONE (stops_left NBR_PROCESSES (main s))
    = List.map PyInt (number_range lo hi) ++ repeat FLAG_ALL_DONE NBR_PROCESSES;
  (* first in, first out *)
  inv_fifo : work_gets (trace s) ++ possible s = work_puts (trace s)
}.

(** Nothing in the pipeline makes a worker raise. *)
Record crash_free (s : state) : Prop := {
  cf_todo : Forall (fun n => crashes (PyInt n) = false) (todo_of (main s));
  cf_possible : Forall (fun x => crashes x = false) (possible s);
  cf_held : Forall (fun x => crashes x = false) (held (processes s));
  cf_alive : countb is_crashed (processes s) = 0%nat
}.

(** ** The [Pool] version of the prime cell *)






(** ** The traffic on the result queue *)

Definition result_puts (t : list event) : list pyobj :=
  flat_map (fun e => match e with
                     | PutEv definite_primes_queue x => [x]
                     | _ => []
                     end) t.

Definition result_gets (t : list event) : list pyobj :=
  flat_map (fun e => match e with
                     | GetEv definite_primes_queue x => [x]
                     | _ => []
                     end) t.

(** What the main script has read so far is what was put on the result
    queue and is no longer in it; the counter and [primes] are the finished
    flags and the other values among what was read, in the order read. *)
Record results_accounted (s : state) : Prop := {
  ra_fifo : result_gets (trace s) ++ definite s = result_puts (trace s);
  ra_primes :
    primes_of (main s) = List.filter not_finished_flag (result_gets (trace s));
  ra_count :
    finished_of (main s)
    = countb (is_flag FLAG_WORKER_FINISHED_PROCESSING) (result_gets (trace s))
}.

(** With one worker the values keep their order on the way from the range
    to [primes]. *)
Definition in_serial_order (lo hi : Z) (s : state) : Prop :=
  primes_of (main s)
  ++ List.filter not_finished_flag (definite s)
  ++ List.filter pushes (held (processes s))
  ++ List.filter pushes (possible s)
  ++ List.filter pushes (List.map PyInt (todo_of (main s)))
  = List.filter pushes (List.map PyInt (number_range lo hi)).

(** A candidate on which [math.sqrt] raises is still on its way to a
    worker, or has killed one. *)
Definition doomed (s : state) : Prop :=
  (0 < countb is_crashed (processes s))%nat
  \/ Exists (fun x => crashes x = true)
       (List.map PyInt (todo_of (main s)) ++ possible s ++ held (processes s)).

(** ** The Python [fib] of the Cython notebook *)

(** [fib] is the function of the pure Python cell, whose argument is a
    Python [int]; the [%%cython] cell, which takes a C [int], is not
    embedded.  The doubles [a] and [b] of [fib] only ever hold whole numbers.  A whole
    number of magnitude at most [2^53] is a double, and the double sum of
    two such numbers is their sum as long as that is again at most [2^53]
    in magnitude.  Beyond that a sum may be rounded; the model stops there
    with [None]. *)
Definition double_add (a b : Z) : option Z :=
  if Z.abs (a + b) <=? 2 ^ 53 then Some (a + b) else None.

(** [for i in range(n): a, b = a + b, a]. *)
Fixpoint fib_loop (steps : nat) (a b : Z) : option Z :=
  match steps with
  | O => Some a
  | S steps' =>
      match double_add a b with
      | Some sum => fib_loop steps' sum a
      | None => None
      end
  end.

Definition fib (n : Z) : option Z := fib_loop (Z.to_nat n) 0 1.

(** The Fibonacci numbers, to compare with. *)
Fixpoint fibonacci (n : nat) : Z :=
  match n with
  | O => 0
  | S m => match m with
           | O => 1
           | S k => fibonacci m + fibonacci k
           end
  end.

(** The Fibonacci number before the [n]-th; before the first comes 1, the
    start value of [b]. *)
Definition fibonacci_before (n : nat) : Z :=
  match n with O => 1 | S m => fibonacci m end.

(** ** The Monte Carlo estimate of pi *)

(** [random.uniform(0, 1)] is a function [uniform] on the state of the
    random number generator, and the floating-point test
    [x * x + y * y <= 1.0] is a function [is_in_unit_circle]; both are
    left open.  [number_estimates] is a whole number (the notebook passes
    it as a float), so that [int(number_estimates)] is that number. *)
Fixpoint estimate_loop {rng float : Type} (uniform : rng -> float * rng)
    (is_in_unit_circle : float -> float -> bool)
    (steps : nat) (number_trials_in_quarter_circle : Z) (g : rng) : Z * rng :=
  match steps with
  | O => (number_trials_in_quarter_circle, g)
  | S steps' =>
      let (x, g1) := uniform g in
      let (y, g2) := uniform g1 in
      estimate_loop uniform is_in_unit_circle steps'
        (number_trials_in_quarter_circle + Z.b2z (is_in_unit_circle x y)) g2
  end.

Definition estimate_number_points_in_quarter_circle {rng float : Type}
    (uniform : rng -> float * rng)
    (is_in_unit_circle : float -> float -> bool)
    (number_estimates : Z) (g : rng) : Z * rng :=
  estimate_loop uniform is_in_unit_circle (Z.to_nat number_estimates) 0 g.

(** [int(a / b)] for Python ints [a] and [b] with [0 < b]: the true
    division gives the double nearest to the quotient (ties to even), or
    raises [OverflowError] when that is beyond the doubles, and [int] cuts
    the fraction.  With [m] the whole part of the quotient of the
    magnitudes: below 1 the doubles are [2^-53] apart; when [m] has fewer
    than 53 bits the doubles between [m] and [m + 1] are [1 / 2^(53-bits)]
    apart and the rounded quotient reaches [m + 1] when the quotient is at
    least half a step below it; from 53 bits on the doubles are the
    multiples of [2^(bits-53)]. *)
Definition int_true_div (a b : Z) : result Z :=
  let m := Z.abs a / b in
  if m =? 0 then
    Ok (Z.sgn a * (if b * (2 ^ 54 - 1) <=? Z.abs a * 2 ^ 54 then 1 else 0))
  else
    let bits := Z.log2 m + 1 in
    if bits <? 53 then
      let h := 2 ^ (54 - bits) in
      Ok (Z.sgn a
          * (if b * ((m + 1) * h - 1) <=? Z.abs a * h then m + 1 else m))
    else
      let ulp := 2 ^ (bits - 53) in
      let lower := m / ulp * ulp in
      let offset := Z.abs a - lower * b in
      let x :=
        if orb (ulp * b <? 2 * offset)
               (andb (2 * offset =? ulp * b) (Z.odd (lower / ulp)))
        then lower + ulp else lower in
      if 2 ^ 1024 <=? x then Raise OverflowError else Ok (Z.sgn a * x).

(** The cells around [pool.map]:
    [pool = Pool(processes=number_parallel_blocks)], which raises
    [ValueError] for a number below one;
    [number_samples_per_worker_task = number_samples_in_total /
    number_parallel_blocks], a float;
    [number_trials_per_process = [number_samples_per_worker_task] *
    number_parallel_blocks]; and
    [pool.map(estimate_number_points_in_quarter_circle,
    number_trials_per_process)], in which each task takes [int] of the
    float it is given.  [generator task] is the state in which the process
    that runs the task finds its random number generator. *)
Definition number_in_unit_circles {rng float : Type}
    (uniform : rng -> float * rng)
    (is_in_unit_circle : float -> float -> bool)
    (generator : nat -> rng)
    (number_samples_in_total number_parallel_blocks : Z) : result (list Z) :=
  if number_parallel_blocks <? 1 then Raise ValueError
  else
    match int_true_div number_samples_in_total number_parallel_blocks with
    | Raise e => Raise e
    | Ok number_estimates =>
        Ok (imap
              (fun task n =>
                 fst (estimate_number_points_in_quarter_circle
                        uniform is_in_unit_circle n (generator task)))
              (repeat number_estimates (Z.to_nat number_parallel_blocks)))
    end.

(** [sum(number_in_unit_circles)]. *)
Definition py_sum (l : list Z) : Z := List.fold_left Z.add l 0.

(** ** Trial division on machine integers

    [odd_divisor_free p d n]: none of the [n] numbers [d], [d + 2], ...
    divides [p].  It runs on 63-bit integers and is used to find that
    [2^53 + 5] is prime, which the loop of [check_prime] settles by the
    same divisions. *)
Fixpoint odd_divisor_free (p d : Uint63.int) (n : positive) : bool :=
  match n with
  | xH => negb (Uint63.eqb (Uint63.mod p d) (Uint63.of_Z 0))
  | xO n' =>
      odd_divisor_free p d n'
      && odd_divisor_free p (Uint63.add d (Uint63.of_pos (xO n'))) n'
  | xI n' =>
      negb (Uint63.eqb (Uint63.mod p d) (Uint63.of_Z 0))
      && odd_divisor_free p (Uint63.add d (Uint63.of_Z 2)) n'
      && odd_divisor_free p (Uint63.add d (Uint63.of_pos (xO (Pos.succ n')))) n'
  end.

(** ** Facts about [range] *)

Lemma range_from_In (len : nat) (start step i : Z) :
  In i (range_from len start step) <->
  exists k, (k < len)%nat /\ i = start + step * Z.of_nat k.
Proof.
  revert start. induction len as [|len IH]; intros start; simpl.
  - split; [intros [] | intros (k & Hk & _); lia].
  - rewrite IH. split.
    + intros [<- | (k & Hk & ->)].
      * exists 0%nat. split; lia.
      * exists (S k). split; lia.
    + intros ([|k] & Hk & ->).
      * left. lia.
      * right. exists k. split; lia.
Qed.

Lemma py_range_In (start stop step i : Z) :
  0 < step ->
  In i (py_range start stop step) <->
  start <= i < stop /\ (i - start) mod step = 0.
Proof.
  intros Hstep. unfold py_range. rewrite range_from_In. split.
  - intros (k & Hk & ->).
    assert (Hk1 : Z.of_nat k + 1 <= (stop - start + step - 1) / step) by lia.
    assert (H2 : step * (Z.of_nat k + 1) <= stop - start + step - 1).
    { etransitivity; [apply Z.mul_le_mono_nonneg_l; [lia | exact Hk1]|].
      apply Z.mul_div_le; lia. }
    split; [nia|].
    replace (start + step * Z.of_nat k - start) with (Z.of_nat k * step) by ring.
    apply Z_mod_mult.
  - intros ((Hlo & Hhi) & Hmod).
    apply Z.mod_divide in Hmod; [|lia]. destruct Hmod as [q Hq].
    assert (0 <= q) by nia.
    exists (Z.to_nat q). split; [|rewrite Z2Nat.id by lia; lia].
    assert (Hq1 : q + 1 <= (stop - start + step - 1) / step)
      by (apply Z.div_le_lower_bound; [lia | nia]).
    lia.
Qed.

Lemma number_range_In (lo hi i : Z) :
  In i (number_range lo hi) <-> lo <= i < hi.
Proof.
  unfold number_range. rewrite py_range_In by lia.
  rewrite Z.mod_1_r. tauto.
Qed.

Lemma number_range_empty (lo hi : Z) : hi <= lo -> number_range lo hi = [].
Proof.
  intros H. unfold number_range, py_range.
  replace (hi - lo + 1 - 1) with (hi - lo) by ring.
  rewrite Z.div_1_r. replace (Z.to_nat (hi - lo)) with 0%nat by lia.
  reflexivity.
Qed.

Lemma number_range_cons (lo hi : Z) :
  lo < hi -> number_range lo hi = lo :: number_range (lo + 1) hi.
Proof.
  intros H. unfold number_range, py_range.
  replace (hi - lo + 1 - 1) with (hi - lo) by ring.
  replace (hi - (lo + 1) + 1 - 1) with (hi - lo - 1) by ring.
  rewrite !Z.div_1_r.
  replace (Z.to_nat (hi - lo)) with (S (Z.to_nat (hi - lo - 1))) by lia.
  reflexivity.
Qed.

(** ** Trial division *)

Lemma divisor_found_true (n : Z) (l : list Z) :
  divisor_found n l = true <-> exists i, In i l /\ n mod i = 0.
Proof.
  induction l as [|i l IH]; simpl.
  - split; [discriminate | intros (i & [] & _)].
  - destruct (Z.eqb_spec (n mod i) 0) as [E|E].
    + split; [eauto | reflexivity].
    + rewrite IH. split.
      * intros (j & Hj & Hm). eauto.
      * intros (j & [-> | Hj] & Hm); [contradiction | eauto].
Qed.

Lemma odd_step_from_3 (i : Z) : (i - 3) mod 2 = 0 <-> Z.odd i = true.
Proof.
  split.
  - intros H. apply Z.mod_divide in H; [|lia]. destruct H as [q Hq].
    apply Z.odd_spec. exists (q + 1). lia.
  - intros H. apply Z.odd_spec in H. destruct H as [m Hm].
    apply Z.mod_divide; [lia|]. exists (m - 1). lia.
Qed.

Lemma loop_no_divisor (n : Z) :
  divisor_found n (py_range 3 (Z.sqrt n + 1) 2) = false <-> no_odd_divisor n.
Proof.
  rewrite <- Bool.not_true_iff_false, divisor_found_true.
  unfold no_odd_divisor. split.
  - intros H d Hd Hodd Hm. apply H. exists d. split; [|exact Hm].
    apply py_range_In; [lia|]. split; [lia|]. now apply odd_step_from_3.
  - intros H (i & Hi & Hm). apply py_range_In in Hi; [|lia].
    destruct Hi as [Hi Hs]. apply (H i); [lia | now apply odd_step_from_3 | exact Hm].
Qed.

(** An odd number without odd divisor in [3 .. sqrt n] has no proper
    divisor at all. *)
Lemma no_odd_divisor_no_divisor (n : Z) :
  1 <= n -> n mod 2 <> 0 ->
  no_odd_divisor n <-> (forall d, 1 < d < n -> ~ (d | n)).
Proof.
  intros Hn Hodd. pose proof (Z.sqrt_spec n ltac:(lia)) as Hs.
  cbv zeta in Hs.
  pose proof (Z.sqrt_nonneg n) as Hs0.
  assert (Hfac : forall e f, n = f * e -> 1 < e -> e <= Z.sqrt n ->
                             no_odd_divisor n -> False).
  { intros e f Hn' He Hle H. apply (H e).
    - assert (e <> 2); [|lia]. intros ->. apply Hodd.
      rewrite Hn'. apply Z_mod_mult.
    - destruct (Z.odd e) eqn:Ho; [reflexivity|]. exfalso. apply Hodd.
      rewrite <- Bool.negb_true_iff, Z.negb_odd in Ho.
      apply Z.even_spec in Ho. destruct Ho as [k ->].
      replace (f * (2 * k)) with ((f * k) * 2) in Hn' by ring.
      rewrite Hn'. apply Z_mod_mult.
    - rewrite Hn'. apply Z_mod_mult. }
  split.
  - intros H d Hd [q Hq].
    destruct (Z_le_gt_dec d (Z.sqrt n)) as [Hle|Hgt].
    + exact (Hfac d q Hq ltac:(lia) Hle H).
    + assert (1 < q) by nia.
      assert (q <= Z.sqrt n).
      { destruct (Z_le_gt_dec q (Z.sqrt n)) as [Hq1|Hq1]; [exact Hq1|].
        assert (Hsq : Z.succ (Z.sqrt n) * Z.succ (Z.sqrt n) <= q * d)
          by (apply Z.mul_le_mono_nonneg; lia).
        rewrite <- Hq in Hsq. lia. }
      apply (Hfac q d); [rewrite Hq; ring | lia | lia | exact H].
  - intros H d Hd _ Hm. apply (H d).
    + split; [lia|]. nia.
    + apply Z.mod_divide; [lia | exact Hm].
Qed.

(** ** [int(math.sqrt(n))] in double precision *)

(** Below [2^53] the conversion is exact, and below [2^52] so is the
    truncated square root: the rounded root cannot reach the next
    integer. *)
Lemma float_of_int_small (n : Z) : n < 2 ^ 53 -> float_of_int n = Ok n.
Proof.
  intros H. unfold float_of_int.
  destruct (Z.ltb_spec n (2 ^ 53)) as [_|H']; [reflexivity | lia].
Qed.

Lemma sqrt_floor_exact (x : Z) : 0 <= x < 2 ^ 52 -> sqrt_floor x = Z.sqrt x.
Proof.
  intros Hx. unfold sqrt_floor.
  destruct (Z.eqb_spec (Z.sqrt x) 0) as [E|E]; [now rewrite E|].
  pose proof (Z.sqrt_nonneg x) as Hs0.
  pose proof (Z.sqrt_spec x ltac:(lia)) as Hs. cbv zeta in Hs.
  set (s := Z.sqrt x) in *.
  assert (Hs26 : s < 2 ^ 26).
  { destruct (Z_lt_ge_dec s (2 ^ 26)) as [Hlt|Hge]; [exact Hlt | exfalso].
    assert (2 ^ 26 * 2 ^ 26 <= s * s) by (apply Z.mul_le_mono_nonneg; lia).
    change (2 ^ 26 * 2 ^ 26) with (2 ^ 52) in *. lia. }
  pose proof (Z.log2_spec s ltac:(lia)) as [Hl1 Hl2].
  pose proof (Z.log2_nonneg s) as Hl0.
  set (l := Z.log2 s) in *.
  assert (Hl : l < 26).
  { destruct (Z_lt_ge_dec l 26) as [Hlt|Hge]; [exact Hlt | exfalso].
    assert (2 ^ 26 <= 2 ^ l) by (apply Z.pow_le_mono_r; lia). lia. }
  destruct (Z.ltb_spec (l + 1) 53) as [_|Hbig]; [|lia].
  set (h := 2 ^ (54 - (l + 1))).
  assert (Hh : 2 * (s + 1) <= h).
  { unfold h. replace (54 - (l + 1)) with (1 + (52 - l)) by lia.
    rewrite Z.pow_add_r by lia. change (2 ^ 1) with 2.
    assert (2 ^ Z.succ l <= 2 ^ (52 - l)) by (apply Z.pow_le_mono_r; lia).
    lia. }
  destruct (Z.ltb_spec (((s + 1) * h - 1) ^ 2) (x * h ^ 2)) as [Hup|_];
    [|reflexivity].
  exfalso. 
  assert (Hx1 : x + 1 <= (s + 1) * (s + 1)) by lia.
  rewrite !Z.pow_2_r in Hup. nia.
Qed.

Lemma int_math_sqrt_exact (n : Z) :
  0 <= n < 2 ^ 52 -> int_math_sqrt n = Ok (Z.sqrt n).
Proof.
  intros Hn. unfold int_math_sqrt. rewrite Z.abs_eq by lia.
  rewrite float_of_int_small by lia.
  destruct (Z.ltb_spec n 0) as [E|_]; [lia|].
  now rewrite sqrt_floor_exact.
Qed.

(** The quotient kept by the conversion has exactly 53 bits. *)
Lemma float_of_int_quotient (n : Z) :
  2 ^ 53 <= n ->
  let shift := Z.log2 n - 52 in
  1 <= shift /\ 2 ^ 52 <= n / 2 ^ shift < 2 ^ 53.
Proof.
  intros Hn shift.
  assert (Hn0 : 0 < n) by lia.
  pose proof (Z.log2_spec n Hn0) as [Hl1 Hl2].
  assert (Hl : 53 <= Z.log2 n) by (apply Z.log2_le_pow2; lia).
  assert (Hshift : 1 <= shift) by (unfold shift; lia).
  split; [exact Hshift|].
  assert (Hp : 0 < 2 ^ shift) by (apply Z.pow_pos_nonneg; lia).
  assert (E1 : 2 ^ Z.log2 n = 2 ^ 52 * 2 ^ shift).
  { rewrite <- Z.pow_add_r by lia. f_equal. unfold shift. lia. }
  assert (E2 : 2 ^ Z.succ (Z.log2 n) = 2 ^ 53 * 2 ^ shift).
  { rewrite <- Z.pow_add_r by lia. f_equal. unfold shift. lia. }
  split.
  - apply Z.div_le_lower_bound; [exact Hp|]. lia.
  - apply Z.div_lt_upper_bound; [exact Hp|]. lia.
Qed.

Lemma float_of_int_overflow (n : Z) :
  2 ^ 1024 <= n -> float_of_int n = Raise OverflowError.
Proof.
  intros Hn.
  assert (H53 : 2 ^ 53 <= n).
  { etransitivity; [|exact Hn]. apply Z.pow_le_mono_r; lia. }
  destruct (float_of_int_quotient n H53) as [Hshift [Hq1 Hq2]].
  assert (Hl : 1024 <= Z.log2 n) by (apply Z.log2_le_pow2; lia).
  unfold float_of_int.
  destruct (Z.ltb_spec n (2 ^ 53)) as [E|_]; [lia|].
  cbv zeta. set (shift := Z.log2 n - 52) in *.
  set (q := n / 2 ^ shift) in *.
  match goal with
  | |- context [if ?c then q + 1 else q] =>
      set (q' := if c then q + 1 else q)
  end.
  assert (Hq' : 2 ^ 52 <= q') by (unfold q'; destruct (orb _ _); lia).
  assert (Hp : 0 < 2 ^ shift) by (apply Z.pow_pos_nonneg; lia).
  assert (E1 : 2 ^ 1024 <= 2 ^ 52 * 2 ^ shift).
  { rewrite <- Z.pow_add_r by lia. apply Z.pow_le_mono_r; unfold shift; lia. }
  assert (2 ^ 52 * 2 ^ shift <= q' * 2 ^ shift)
    by (apply Z.mul_le_mono_nonneg_r; lia).
  destruct (Z.leb_spec (2 ^ 1024) (q' * 2 ^ shift)) as [_|E]; [reflexivity | lia].
Qed.

Lemma float_of_int_fits (n : Z) :
  n < 2 ^ 1023 -> exists x, float_of_int n = Ok x.
Proof.
  intros Hn. unfold float_of_int.
  destruct (Z.ltb_spec n (2 ^ 53)) as [E|H53]; [eauto|].
  destruct (float_of_int_quotient n H53) as [Hshift [Hq1 Hq2]].
  assert (Hl : Z.log2 n < 1023) by (apply Z.log2_lt_pow2; lia).
  cbv zeta. set (shift := Z.log2 n - 52) in *.
  set (q := n / 2 ^ shift) in *.
  match goal with
  | |- context [if ?c then q + 1 else q] =>
      set (q' := if c then q + 1 else q)
  end.
  assert (Hq' : q' <= 2 ^ 53) by (unfold q'; destruct (orb _ _); lia).
  assert (Hp : 0 < 2 ^ shift) by (apply Z.pow_pos_nonneg; lia).
  assert (E1 : 2 ^ 53 * 2 ^ shift <= 2 ^ 1023).
  { rewrite <- Z.pow_add_r by lia. apply Z.pow_le_mono_r; unfold shift; lia. }
  assert (q' * 2 ^ shift <= 2 ^ 53 * 2 ^ shift)
    by (apply Z.mul_le_mono_nonneg_r; lia).
  assert (2 ^ 1023 < 2 ^ 1024) by (apply Z.pow_lt_mono_r; lia).
  destruct (Z.leb_spec (2 ^ 1024) (q' * 2 ^ shift)) as [E|_]; [lia | eauto].
Qed.

Lemma float_of_int_raise (n : Z) (e : exn) :
  float_of_int n = Raise e -> e = OverflowError /\ 2 ^ 1023 <= n.
Proof.
  intros H. destruct (Z_lt_ge_dec n (2 ^ 1023)) as [Hlt|Hge].
  - destruct (float_of_int_fits n Hlt) as [x Hx]. congruence.
  - split; [|lia]. unfold float_of_int in H.
    destruct (n <? 2 ^ 53); [discriminate|]. cbv zeta in H.
    destruct (2 ^ 1024 <=? _); congruence.
Qed.

Lemma int_math_sqrt_overflow (n : Z) :
  2 ^ 1024 <= Z.abs n -> int_math_sqrt n = Raise OverflowError.
Proof.
  intros Hn. unfold int_math_sqrt. now rewrite float_of_int_overflow.
Qed.

Lemma int_math_sqrt_negative (n : Z) :
  - 2 ^ 1023 < n < 0 -> int_math_sqrt n = Raise ValueError.
Proof.
  intros Hn. unfold int_math_sqrt.
  destruct (float_of_int_fits (Z.abs n) ltac:(lia)) as [x ->].
  destruct (Z.ltb_spec n 0) as [_|E]; [reflexivity | lia].
Qed.

Lemma int_math_sqrt_returns (n : Z) :
  0 <= n < 2 ^ 1023 -> exists r, int_math_sqrt n = Ok r.
Proof.
  intros Hn. unfold int_math_sqrt.
  destruct (float_of_int_fits (Z.abs n) ltac:(lia)) as [x ->].
  destruct (Z.ltb_spec n 0) as [E|_]; [lia | eauto].
Qed.

Lemma int_math_sqrt_raise (n : Z) (e : exn) :
  int_math_sqrt n = Raise e ->
  (e = ValueError /\ n < 0) \/ (e = OverflowError /\ 2 ^ 1023 <= Z.abs n).
Proof.
  unfold int_math_sqrt. destruct (float_of_int (Z.abs n)) as [x|e'] eqn:Hf.
  - destruct (Z.ltb_spec n 0) as [E|_]; [|discriminate].
    intros [= <-]. left. split; [reflexivity | exact E].
  - intros [= <-]. right. now apply float_of_int_raise.
Qed.

(** What the conversion gives lies within half a unit in the last place
    of the number, and not below the power of two under it. *)
Lemma float_of_int_near (n x : Z) :
  0 <= n -> float_of_int n = Ok x ->
  (2 ^ 53 - 1) * n <= 2 ^ 53 * x <= (2 ^ 53 + 1) * n
  /\ (0 < n -> 2 ^ Z.log2 n <= x).
Proof.
  intros Hn. unfold float_of_int.
  destruct (Z.ltb_spec n (2 ^ 53)) as [Hsmall|H53].
  - intros [= <-]. split; [lia|]. intros Hpos.
    apply (Z.log2_spec n Hpos).
  - destruct (float_of_int_quotient n H53) as [Hshift [Hq1 Hq2]].
    cbv zeta. set (shift := Z.log2 n - 52) in *.
    assert (Hp : 0 < 2 ^ shift) by (apply Z.pow_pos_nonneg; lia).
    assert (Hhalf : 2 ^ shift = 2 * 2 ^ (shift - 1)).
    { rewrite <- (Z.pow_succ_r 2 (shift - 1)) by lia. f_equal. lia. }
    pose proof (Z.div_mod n (2 ^ shift) ltac:(lia)) as Hdm.
    pose proof (Z.mod_pos_bound n (2 ^ shift) Hp) as Hr.
    assert (Hlog : 2 ^ Z.log2 n = 2 ^ 52 * 2 ^ shift).
    { rewrite <- Z.pow_add_r by lia. f_equal. unfold shift. lia. }
    set (q := n / 2 ^ shift) in *. set (r := n mod 2 ^ shift) in *.
    set (half := 2 ^ (shift - 1)) in *. set (u := 2 ^ shift) in *.
    assert (H53' : 2 ^ 53 = 2 * 2 ^ 52) by reflexivity.
    assert (Hx : forall q', (q' = q /\ r <= half) \/ (q' = q + 1 /\ half <= r) ->
               (2 ^ 53 - 1) * n <= 2 ^ 53 * (q' * u) <= (2 ^ 53 + 1) * n
               /\ (0 < n -> 2 ^ Z.log2 n <= q' * u)).
    { intros q' Hq'. rewrite Hlog.
      assert (Hu : 2 ^ 52 * u <= n) by nia.
      destruct Hq' as [[-> Hle] | [-> Hge]].
      - split; [|intros _; nia]. nia.
      - split; [|intros _; nia]. nia. }
    match goal with
    | |- context [if ?c then q + 1 else q] =>
        destruct c eqn:Hc
    end.
    + assert (Hup : half <= r).
      { apply Bool.orb_prop in Hc. destruct Hc as [Hc | Hc].
        - apply Z.ltb_lt in Hc. lia.
        - apply andb_prop in Hc. destruct Hc as [Hc _].
          apply Z.eqb_eq in Hc. lia. }
      destruct (2 ^ 1024 <=? (q + 1) * u); [discriminate|].
      intros [= <-]. apply Hx. right. split; [reflexivity | exact Hup].
    + assert (Hdown : r <= half).
      { apply Bool.orb_false_elim in Hc. destruct Hc as [Hc _].
        apply Z.ltb_ge in Hc. exact Hc. }
      destruct (2 ^ 1024 <=? q * u); [discriminate|].
      intros [= <-]. apply Hx. left. split; [reflexivity | exact Hdown].
Qed.

(** The truncated root is not far above the integer square root. *)
Lemma sqrt_floor_upper (x : Z) :
  0 <= x -> 0 <= sqrt_floor x <= 2 * Z.sqrt x + 1.
Proof.
  intros Hx. unfold sqrt_floor.
  pose proof (Z.sqrt_nonneg x) as Hs0.
  set (s := Z.sqrt x) in *.
  destruct (Z.eqb_spec s 0) as [E|E]; [lia|].
  pose proof (Z.log2_spec s ltac:(lia)) as [Hl1 Hl2].
  pose proof (Z.log2_nonneg s) as Hl0.
  set (l := Z.log2 s) in *.
  destruct (Z.ltb_spec (l + 1) 53) as [Hsmall|Hbig].
  - destruct (_ <? _); lia.
  - set (ulp := 2 ^ (l + 1 - 53)).
    assert (Hulp : 0 < ulp) by (apply Z.pow_pos_nonneg; lia).
    assert (Hulp_le : ulp <= 2 ^ l) by (apply Z.pow_le_mono_r; lia).
    pose proof (Z.mul_div_le s ulp Hulp) as Hlow.
    assert (0 <= s / ulp) by (apply Z.div_pos; lia).
    rewrite (Z.mul_comm (s / ulp)).
    destruct (_ <? _); nia.
Qed.

(** A number below [2^53] whose square is not above [x] by more than the
    rounding of the conversion is reached by the truncated root. *)
Lemma sqrt_floor_reaches (x d : Z) :
  1 <= d < 2 ^ 53 ->
  (2 ^ 53 - 1) * (d * d) <= 2 ^ 53 * x ->
  2 ^ Z.log2 (d * d) <= x ->
  d <= sqrt_floor x.
Proof.
  intros Hd Hnear Hpow.
  assert (H53 : 2 ^ 53 = 9007199254740992) by reflexivity.
  assert (Hx : 0 <= x) by nia.
  assert (Hs : d - 1 <= Z.sqrt x).
  { apply Z.sqrt_le_square; [lia | lia | nia]. }
  pose proof (Z.sqrt_spec x Hx) as Hspec. cbv zeta in Hspec.
  unfold sqrt_floor. set (s := Z.sqrt x) in *.
  assert (Hs1 : 1 <= s).
  { destruct (Z_le_gt_dec 1 s) as [H|H]; [exact H | exfalso].
    assert (s = 0) by lia. assert (d = 1) by lia. subst d.
    change (2 ^ Z.log2 (1 * 1)) with 1 in Hpow. lia. }
  destruct (Z.eqb_spec s 0) as [E|_]; [lia|].
  pose proof (Z.log2_spec s ltac:(lia)) as [Hl1 Hl2].
  pose proof (Z.log2_nonneg s) as Hl0.
  set (l := Z.log2 s) in *.
  destruct (Z_le_gt_dec d s) as [Hge|Hlt].
  - (* the integer root already reaches d *)
    destruct (Z.ltb_spec (l + 1) 53) as [Hsmall|Hbig].
    + destruct (_ <? _); lia.
    + set (ulp := 2 ^ (l + 1 - 53)).
      assert (Hulp : 0 < ulp) by (apply Z.pow_pos_nonneg; lia).
      assert (Hl52 : 2 ^ l = 2 ^ 52 * ulp).
      { unfold ulp. rewrite <- Z.pow_add_r by lia. f_equal. lia. }
      assert (Hq : 2 ^ 52 <= s / ulp)
        by (apply Z.div_le_lower_bound; lia).
      assert (Hlower : d <= s / ulp * ulp).
      { destruct (Z.eq_dec l 52) as [El|El].
        - assert (ulp = 1) as -> by (unfold ulp; rewrite El; reflexivity).
          rewrite Z.div_1_r. lia.
        - assert (2 <= ulp).
          { unfold ulp. change 2 with (2 ^ 1). apply Z.pow_le_mono_r; lia. }
          assert (H52 : 2 ^ 52 = 4503599627370496) by reflexivity.
          nia. }
      destruct (_ <? _); lia.
  - (* the integer root is d - 1 and the rounding makes up for it *)
    assert (Es : s = d - 1) by lia.
    assert (Hl53 : l < 53).
    { destruct (Z_lt_ge_dec l 53) as [H|H]; [exact H | exfalso].
      assert (2 ^ 53 <= 2 ^ l) by (apply Z.pow_le_mono_r; lia). lia. }
    assert (Hnot_pow : d < 2 ^ Z.succ l).
    { destruct (Z_lt_ge_dec d (2 ^ Z.succ l)) as [H|H]; [exact H | exfalso].
      assert (Ed : d = 2 ^ Z.succ l) by lia.
      assert (Ed2 : d * d = 2 ^ (2 * Z.succ l)).
      { rewrite Ed, <- Z.pow_add_r by lia. f_equal. lia. }
      rewrite Ed2, Z.log2_pow2 in Hpow by lia. rewrite <- Ed2 in Hpow. lia. }
    destruct (Z.ltb_spec (l + 1) 53) as [Hsmall|Hbig].
    + set (h := 2 ^ (54 - (l + 1))).
      assert (Hh : 2 ^ l * h = 2 ^ 53).
      { unfold h. rewrite <- Z.pow_add_r by lia. f_equal. lia. }
      assert (Hh' : 2 ^ Z.succ l * h = 2 ^ 54).
      { unfold h. rewrite <- Z.pow_add_r by lia. f_equal. lia. }
      assert (H54 : 2 ^ 54 = 18014398509481984) by reflexivity.
      assert (Hh0 : 0 < h) by (apply Z.pow_pos_nonneg; lia).
      replace (s + 1) with d by lia.
      destruct (Z.ltb_spec ((d * h - 1) ^ 2) (x * h ^ 2)) as [_|Hno]; [lia|].
      exfalso. rewrite !Z.pow_2_r in Hno.
      set (D := d * h) in *.
      assert (HD1 : 2 ^ 53 + h <= D) by (unfold D; nia).
      assert (HD2 : D + h <= 2 ^ 54) by (unfold D; nia).
      assert (HxD : (2 ^ 53 - 1) * (D * D) <= 2 ^ 53 * (x * (h * h)))
        by (unfold D; nia).
      assert (Hgap : D * h > 2 ^ 53) by nia.
      nia.
    + assert (El : l = 52) by lia.
      replace (l + 1 - 53) with 0 by lia. change (2 ^ 0) with 1.
      rewrite Z.div_1_r, Z.mul_1_r.
      assert (H52 : 2 ^ 52 = 4503599627370496) by reflexivity.
      rewrite El in Hl1.
      destruct (Z.ltb_spec ((2 * s + 1) ^ 2) (4 * x)) as [_|Hno]; [lia|].
      exfalso. rewrite Z.pow_2_r in Hno. nia.
Qed.

(** Up to the range of a double, [int(math.sqrt(n))] is a number below
    [n] that no number below [2^53] with a square up to [n] exceeds. *)
Lemma int_math_sqrt_bounds (n : Z) :
  0 <= n < 2 ^ 1023 ->
  exists r,
    int_math_sqrt n = Ok r
    /\ 0 <= r
    /\ (forall d, 1 <= d < 2 ^ 53 -> d * d <= n -> d <= r)
    /\ (2 <= n -> r < n).
Proof.
  intros Hn. unfold int_math_sqrt. rewrite Z.abs_eq by lia.
  destruct (float_of_int_fits n ltac:(lia)) as [x Hx]. rewrite Hx.
  destruct (Z.ltb_spec n 0) as [E|_]; [lia|].
  destruct (float_of_int_near n x ltac:(lia) Hx) as [[Hlow Hhigh] Hpow].
  assert (H53 : 2 ^ 53 = 9007199254740992) by reflexivity.
  assert (Hx0 : 0 <= x) by lia.
  pose proof (sqrt_floor_upper x Hx0) as Hup.
  eexists. split; [reflexivity|]. split; [lia|]. split.
  - intros d Hd Hdn. apply sqrt_floor_reaches; [exact Hd | nia |].
    assert (Hpos : 0 < n) by nia.
    etransitivity; [|apply Hpow; exact Hpos].
    apply Z.pow_le_mono_r; [lia|]. apply Z.log2_le_mono. exact Hdn.
  - intros H2.
    destruct (Z_lt_ge_dec n (2 ^ 52)) as [Hsmall|Hbig].
    + rewrite float_of_int_small in Hx by lia. injection Hx as <-.
      rewrite sqrt_floor_exact by lia. apply Z.sqrt_lt_lin. lia.
    + assert (H52 : 2 ^ 52 = 4503599627370496) by reflexivity.
      pose proof (Z.sqrt_spec x Hx0) as Hspec. cbv zeta in Hspec.
      pose proof (Z.sqrt_nonneg x) as Hs0.
      set (s := Z.sqrt x) in *.
      assert (Hx2 : x <= 2 * n) by lia.
      assert (Hs : s <= 2 * n) by nia.
      destruct (Z_lt_ge_dec (2 * s + 1) n) as [H|H]; [lia | exfalso].
      assert ((2 * s + 1) * (2 * s + 1) <= 16 * n + 1) by nia.
      nia.
Qed.

(** ** The two versions of [check_prime] *)

Lemma check_prime_even (n : Z) : n mod 2 = 0 -> check_prime n = Ok false.
Proof. intros H. unfold check_prime. rewrite H. reflexivity. Qed.

Lemma check_prime_odd (n : Z) :
  0 <= n < 2 ^ 52 -> n mod 2 <> 0 ->
  check_prime n = Ok (negb (divisor_found n (py_range 3 (Z.sqrt n + 1) 2))).
Proof.
  intros Hn Hodd. unfold check_prime.
  destruct (Z.eqb_spec (n mod 2) 0) as [E|_]; [contradiction|].
  rewrite int_math_sqrt_exact by exact Hn.
  destruct (divisor_found _ _); reflexivity.
Qed.

Lemma check_prime_negative_odd (n : Z) :
  - 2 ^ 1023 < n < 0 -> n mod 2 <> 0 -> check_prime n = Raise ValueError.
Proof.
  intros Hn Hodd. unfold check_prime.
  destruct (Z.eqb_spec (n mod 2) 0) as [E|_]; [contradiction|].
  now rewrite int_math_sqrt_negative.
Qed.

Lemma check_prime_overflow (n : Z) :
  2 ^ 1024 <= Z.abs n -> n mod 2 <> 0 -> check_prime n = Raise OverflowError.
Proof.
  intros Hn Hodd. unfold check_prime.
  destruct (Z.eqb_spec (n mod 2) 0) as [E|_]; [contradiction|].
  now rewrite int_math_sqrt_overflow.
Qed.

(** Up to the range of a double the function returns on every
    non-negative number. *)
Lemma check_prime_returns (n : Z) :
  0 <= n < 2 ^ 1023 -> exists b, check_prime n = Ok b.
Proof.
  intros Hn. unfold check_prime.
  destruct (n mod 2 =? 0); [eauto|].
  destruct (int_math_sqrt_returns n Hn) as [r ->].
  destruct (divisor_found _ _); eauto.
Qed.

(** The body of the queue worker decides as the serial function does. *)
Lemma worker_body_check_prime (n : Z) :
  worker_body (PyInt n) =
  match check_prime n with
  | Ok true => Put (PyInt n)
  | Ok false => Continue
  | Raise _ => Crash
  end.
Proof.
  unfold worker_body, check_prime. simpl.
  destruct (n mod 2 =? 0); [reflexivity|].
  destruct (int_math_sqrt n) as [r|e]; [|reflexivity].
  destruct (divisor_found _ _); reflexivity.
Qed.

Lemma pushes_check_prime (n : Z) :
  pushes (PyInt n) = true <-> check_prime n = Ok true.
Proof.
  unfold pushes. rewrite worker_body_check_prime.
  destruct (check_prime n) as [[|]|e]; split; congruence.
Qed.

Lemma crashes_check_prime (n : Z) :
  crashes (PyInt n) = false <-> exists b, check_prime n = Ok b.
Proof.
  unfold crashes. rewrite worker_body_check_prime.
  destruct (check_prime n) as [[|]|e]; split; eauto; try congruence.
  intros [b Hb]. discriminate.
Qed.

Lemma worker_body_flag :
  worker_body FLAG_ALL_DONE = PutAndBreak FLAG_WORKER_FINISHED_PROCESSING.
Proof. reflexivity. Qed.

Lemma worker_body_break (n flag : pyobj) :
  worker_body n = PutAndBreak flag ->
  n = FLAG_ALL_DONE /\ flag = FLAG_WORKER_FINISHED_PROCESSING.
Proof.
  unfold worker_body. destruct (py_eq n FLAG_ALL_DONE) eqn:E.
  - intros [= <-]. split; [|reflexivity].
    destruct n as [z|b]; [discriminate|]. simpl in E.
    apply String.eqb_eq in E. now subst.
  - destruct n as [z|b]; [|discriminate].
    destruct (z mod 2 =? 0); [discriminate|].
    destruct (int_math_sqrt z); [|discriminate].
    destruct (divisor_found _ _); discriminate.
Qed.

Lemma worker_body_put (n x : pyobj) :
  worker_body n = Put x -> x = n /\ exists z, n = PyInt z.
Proof.
  unfold worker_body. destruct (py_eq n FLAG_ALL_DONE); [discriminate|].
  destruct n as [z|b]; [|discriminate].
  destruct (z mod 2 =? 0); [discriminate|].
  destruct (int_math_sqrt z); [|discriminate].
  destruct (divisor_found _ _); [discriminate|].
  intros [= <-]. eauto.
Qed.

(** The serial loop keeps the numbers the worker would push, in order. *)
Lemma serial_loop_ok (todo primes : list Z) :
  Forall (fun n => crashes (PyInt n) = false) todo ->
  serial_loop todo primes =
  Ok (primes ++ List.filter (fun n => pushes (PyInt n)) todo).
Proof.
  intros H. revert primes.
  induction H as [|n todo Hn _ IH]; intros primes; simpl.
  - now rewrite app_nil_r.
  - unfold pushes, crashes in *. rewrite worker_body_check_prime in *.
    destruct (check_prime n) as [[|]|e]; try discriminate.
    + rewrite IH, <- app_assoc. reflexivity.
    + apply IH.
Qed.

Lemma serial_loop_returns (todo primes l : list Z) :
  serial_loop todo primes = Ok l ->
  Forall (fun n => crashes (PyInt n) = false) todo.
Proof.
  revert primes. induction todo as [|n todo IH]; intros primes; simpl.
  - constructor.
  - intros H. constructor.
    + apply crashes_check_prime.
      destruct (check_prime n) as [b|e]; [eauto | discriminate].
    + destruct (check_prime n) as [[|]|e]; [eauto | eauto | discriminate].
Qed.

Lemma nonnegative_range_no_crash (lo hi : Z) :
  0 <= lo -> hi <= 2 ^ 1023 ->
  Forall (fun n => crashes (PyInt n) = false) (number_range lo hi).
Proof.
  intros Hlo Hhi. apply List.Forall_forall. intros n Hn.
  apply number_range_In in Hn. apply crashes_check_prime.
  apply check_prime_returns. lia.
Qed.

Lemma filter_pushes_map (l : list Z) :
  List.filter pushes (List.map PyInt l) =
  List.map PyInt (List.filter (fun n => pushes (PyInt n)) l).
Proof.
  induction l as [|n l IH]; simpl; [reflexivity|].
  destruct (pushes (PyInt n)); simpl; now rewrite IH.
Qed.

(** ** Counting *)

Lemma countb_app {A} (f : A -> bool) (l1 l2 : list A) :
  countb f (l1 ++ l2) = (countb f l1 + countb f l2)%nat.
Proof. unfold countb. now rewrite List.filter_app, length_app. Qed.

Lemma countb_cons {A} (f : A -> bool) (x : A) (l : list A) :
  countb f (x :: l) = ((if f x then 1 else 0) + countb f l)%nat.
Proof. unfold countb. simpl. now destruct (f x). Qed.

Lemma countb_nil {A} (f : A -> bool) : countb f [] = 0%nat.
Proof. reflexivity. Qed.

Lemma countb_le {A} (f : A -> bool) (l : list A) :
  (countb f l <= length l)%nat.
Proof. unfold countb. apply List.filter_length_le. Qed.

Lemma countb_all {A} (f : A -> bool) (l : list A) :
  countb f l = length l -> Forall (fun x => f x = true) l.
Proof.
  induction l as [|x l IH]; [constructor|].
  rewrite countb_cons. simpl. intros H.
  pose proof (countb_le f l).
  destruct (f x) eqn:E; [|lia].
  constructor; [exact E | apply IH; lia].
Qed.

Lemma countb_flag_ints (cs : list Z) :
  countb (is_flag FLAG_ALL_DONE) (List.map PyInt cs) = 0%nat.
Proof.
  induction cs as [|c cs IH]; [reflexivity|].
  simpl. rewrite countb_cons. simpl. exact IH.
Qed.

Lemma countb_flag_repeat (k : nat) :
  countb (is_flag FLAG_ALL_DONE) (repeat FLAG_ALL_DONE k) = k.
Proof.
  induction k as [|k IH]; [reflexivity|].
  simpl. rewrite countb_cons, IH. reflexivity.
Qed.

Lemma held_app (l1 l2 : list wstate) : held (l1 ++ l2) = held l1 ++ held l2.
Proof. apply List.flat_map_app. Qed.

Lemma held_cons (w : wstate) (l : list wstate) : held (w :: l) = holds w ++ held l.
Proof. reflexivity. Qed.

Lemma work_puts_snoc (t : list event) (e : event) :
  work_puts (t ++ [e]) = work_puts t ++ work_puts [e].
Proof. apply List.flat_map_app. Qed.

Lemma work_gets_snoc (t : list event) (e : event) :
  work_gets (t ++ [e]) = work_gets t ++ work_gets [e].
Proof. apply List.flat_map_app. Qed.

Lemma filter_cons_app {A} (f : A -> bool) (x : A) (l : list A) :
  List.filter f (x :: l) = List.filter f [x] ++ List.filter f l.
Proof. simpl. now destruct (f x). Qed.

Lemma worker_body_not_flag (n : pyobj) :
  (forall flag, worker_body n <> PutAndBreak flag) ->
  is_flag FLAG_ALL_DONE n = false.
Proof.
  intros H. unfold is_flag. destruct (py_eq n FLAG_ALL_DONE) eqn:E; [|reflexivity].
  exfalso. apply (H FLAG_WORKER_FINISHED_PROCESSING).
  unfold worker_body. now rewrite E.
Qed.

(** ** From the step function to the rules *)

Lemma lookup_split (ws : list wstate) (i : nat) (w : wstate) :
  ws !! i = Some w ->
  exists l1 l2, ws = l1 ++ w :: l2 /\ forall w', <[i := w']> ws = l1 ++ w' :: l2.
Proof.
  intros Hi. exists (take i ws), (drop (S i) ws). split.
  - symmetry. now apply take_drop_middle.
  - intros w'. apply insert_take_drop. eapply lookup_lt_Some. exact Hi.
Qed.

Lemma step_transition (NBR_PROCESSES : nat) (a : actor) (s s' : state) :
  step NBR_PROCESSES a s = Some s' -> transition NBR_PROCESSES s s'.
Proof.
  destruct s as [P D ws c t].
  destruct a as [|i]; cbn [step].
  - unfold main_step, goto, put_possible, got_definite.
    cbn [main definite possible processes trace].
    destruct c as [[|p todo]|[|k]|f primes|f primes|f primes|e].
    + intros [= <-]. constructor.
    + intros [= <-]. constructor.
    + intros [= <-]. constructor.
    + intros [= <-]. constructor.
    + destruct D as [|x D]; [discriminate|].
      destruct (py_eq x FLAG_WORKER_FINISHED_PROCESSING) eqn:Ex.
      * destruct (Nat.eqb_spec (S f) NBR_PROCESSES) as [E|E];
          intros [= <-]; [now apply t_drain_last | now apply t_drain_flag].
      * intros [= <-]. now apply t_drain_prime.
    + destruct (Nat.eqb_spec f NBR_PROCESSES) as [E|E];
        intros [= <-]; [now apply t_assert_ok | now apply t_assert_fail].
    + discriminate.
    + discriminate.
  - unfold worker_step, got_possible, put_definite, become.
    cbn [main definite possible processes trace].
    destruct (ws !! i) as [w|] eqn:Hi; [|discriminate].
    destruct (lookup_split ws i w Hi) as (l1 & l2 & -> & Hins).
    destruct w as [|n| |]; try discriminate.
    + destruct P as [|n P]; [discriminate|].
      intros [= <-]. rewrite Hins. constructor.
    + destruct (worker_body n) as [flag|x| |] eqn:Hb;
        intros [= <-]; rewrite Hins.
      * now apply t_break.
      * now apply t_put.
      * now apply t_continue.
      * now apply t_crash.
Qed.

Lemma run_app (NBR_PROCESSES : nat) (l1 l2 : list actor) (s : state) :
  run NBR_PROCESSES (l1 ++ l2) s =
  match run NBR_PROCESSES l1 s with
  | Some s' => run NBR_PROCESSES l2 s'
  | None => None
  end.
Proof.
  revert s. induction l1 as [|a l1 IH]; intros s; simpl; [reflexivity|].
  destruct (step NBR_PROCESSES a s); [apply IH | reflexivity].
Qed.

(** ** Every step uses up fuel *)

Lemma transition_fuel (NBR_PROCESSES : nat) (s s' : state) :
  transition NBR_PROCESSES s s' ->
  (fuel_of NBR_PROCESSES s' < fuel_of NBR_PROCESSES s)%nat.
Proof.
  destruct 1; unfold fuel_of; simpl;
    rewrite ?held_app, ?held_cons, ?length_app; simpl; lia.
Qed.

Lemma run_fuel (NBR_PROCESSES : nat) (schedule : list actor) (s s' : state) :
  run NBR_PROCESSES schedule s = Some s' ->
  (length schedule + fuel_of NBR_PROCESSES s' <= fuel_of NBR_PROCESSES s)%nat.
Proof.
  revert s. induction schedule as [|a rest IH]; intros s; simpl.
  - intros [= ->]. lia.
  - destruct (step NBR_PROCESSES a s) as [s1|] eqn:Hs; [|discriminate].
    intros H. apply IH in H. apply step_transition, transition_fuel in Hs. lia.
Qed.

(** ** The invariant is kept by every step *)

Lemma is_flag_stop_stop : is_flag FLAG_ALL_DONE FLAG_ALL_DONE = true.
Proof. reflexivity. Qed.

Lemma is_flag_stop_finished :
  is_flag FLAG_ALL_DONE FLAG_WORKER_FINISHED_PROCESSING = false.
Proof. reflexivity. Qed.

Lemma is_flag_finished_stop :
  is_flag FLAG_WORKER_FINISHED_PROCESSING FLAG_ALL_DONE = false.
Proof. reflexivity. Qed.

Lemma is_flag_finished_finished :
  is_flag FLAG_WORKER_FINISHED_PROCESSING FLAG_WORKER_FINISHED_PROCESSING = true.
Proof. reflexivity. Qed.

Lemma is_flag_stop_int (z : Z) : is_flag FLAG_ALL_DONE (PyInt z) = false.
Proof. reflexivity. Qed.

Lemma is_flag_finished_int (z : Z) :
  is_flag FLAG_WORKER_FINISHED_PROCESSING (PyInt z) = false.
Proof. reflexivity. Qed.

Lemma pushes_stop : pushes FLAG_ALL_DONE = false.
Proof. reflexivity. Qed.

Ltac body_facts :=
  match goal with
  | H : worker_body ?n = PutAndBreak ?flag |- _ =>
      destruct (worker_body_break n flag H) as [-> ->]; clear H
  | H : worker_body ?n = Put ?x |- _ =>
      let z := fresh "z" in
      let Hp := fresh "Hpush" in
      assert (Hp : pushes n = true) by (unfold pushes; now rewrite H);
      destruct (worker_body_put n x H) as [-> [z ->]]; clear H
  | H : worker_body ?n = Continue |- _ =>
      let Hf := fresh "Hflag" in
      let Hp := fresh "Hpush" in
      assert (Hp : pushes n = false) by (unfold pushes; now rewrite H);
      assert (Hf : is_flag FLAG_ALL_DONE n = false)
        by (apply worker_body_not_flag; intros ?; congruence)
  | H : worker_body ?n = Crash |- _ =>
      let Hf := fresh "Hflag" in
      let Hp := fresh "Hpush" in
      assert (Hp : pushes n = false) by (unfold pushes; now rewrite H);
      assert (Hf : is_flag FLAG_ALL_DONE n = false)
        by (apply worker_body_not_flag; intros ?; congruence)
  | _ => idtac
  end.

Ltac count_norm :=
  cbn [possible definite processes main trace stops_left finished_of
       primes_of todo_of control_ok] in *;
  rewrite ?held_app, ?held_cons, ?countb_app, ?countb_cons, ?countb_nil,
    ?length_app in *;
  cbn [holds is_done is_crashed app length] in *;
  rewrite ?countb_cons, ?countb_nil in *;
  rewrite ?is_flag_stop_stop, ?is_flag_stop_finished, ?is_flag_finished_stop,
    ?is_flag_finished_finished, ?is_flag_stop_int, ?is_flag_finished_int in *.

Ltac flag_facts :=
  repeat match goal with
         | H : py_eq ?x ?f = _ |- _ =>
             change (py_eq x f) with (is_flag f x) in H
         end;
  try match goal with
      | H : is_flag _ _ = _ |- _ => rewrite H in *
      end;
  try match goal with
      | H : pushes _ = _ |- _ => rewrite H in *
      end.

(* [List.filter f (x :: l)] becomes [List.filter f [x] ++ List.filter f l] *)
Ltac split_filters :=
  repeat match goal with
         | |- context [List.filter ?f (?x :: ?l)] =>
             lazymatch l with
             | [] => fail
             | _ => rewrite (filter_cons_app f x l)
             end
         | H : context [List.filter ?f (?x :: ?l)] |- _ =>
             lazymatch l with
             | [] => fail
             | _ => rewrite (filter_cons_app f x l) in H
             end
         end.

Lemma count_occ_cons_app (x y : pyobj) (l : list pyobj) :
  count_occ pyobj_eq_dec (x :: l) y
  = (count_occ pyobj_eq_dec [x] y + count_occ pyobj_eq_dec l y)%nat.
Proof. apply (count_occ_app pyobj_eq_dec [x] l y). Qed.

Ltac split_counts :=
  match goal with
  | |- context [count_occ _ (?x :: ?l) ?y] =>
      lazymatch l with
      | [] => fail
      | _ => rewrite (count_occ_cons_app x y l)
      end
  | H : context [count_occ _ (?x :: ?l) ?y] |- _ =>
      lazymatch l with
      | [] => fail
      | _ => rewrite (count_occ_cons_app x y l) in H
      end
  end.

(* a permutation of appended blocks, from one in the context *)
Ltac by_counting H :=
  apply (Permutation_count_occ pyobj_eq_dec); intros ?y;
  pose proof (proj1 (Permutation_count_occ pyobj_eq_dec _ _) H y);
  repeat first [ rewrite count_occ_app in * | split_counts ];
  lia.

Ltac keep_start :=
  intros Ht [Hlen Hctl Hstops Hdone Hshape Htail Hperm Htrace Hfifo];
  destruct Ht; body_facts; count_norm; flag_facts.

Section Preservation.
Variables (lo hi : Z) (NBR_PROCESSES : nat).
Hypothesis NBR_positive : (0 < NBR_PROCESSES)%nat.

Lemma keep_len s s' :
  transition NBR_PROCESSES s s' -> invariant lo hi NBR_PROCESSES s ->
  length (processes s') = NBR_PROCESSES.
Proof. keep_start; auto. Qed.

Lemma keep_ctl s s' :
  transition NBR_PROCESSES s s' -> invariant lo hi NBR_PROCESSES s ->
  control_ok NBR_PROCESSES (main s').
Proof. keep_start; lia || auto. Qed.

Lemma keep_stops s s' :
  transition NBR_PROCESSES s s' -> invariant lo hi NBR_PROCESSES s ->
  (stops_left NBR_PROCESSES (main s')
   + countb (is_flag FLAG_ALL_DONE) (possible s')
   + countb (is_flag FLAG_ALL_DONE) (held (processes s'))
   + countb is_done (processes s'))%nat = NBR_PROCESSES.
Proof. keep_start; lia. Qed.

Lemma keep_done s s' :
  transition NBR_PROCESSES s s' -> invariant lo hi NBR_PROCESSES s ->
  countb is_done (processes s')
  = (finished_of (main s')
     + countb (is_flag FLAG_WORKER_FINISHED_PROCESSING) (definite s'))%nat.
Proof.
  keep_start; lia.
Qed.

Lemma keep_shape s s' :
  transition NBR_PROCESSES s s' -> invariant lo hi NBR_PROCESSES s ->
  exists cs k,
    possible s' = List.map PyInt cs ++ repeat FLAG_ALL_DONE k
    /\ (cs <> [] ->
        (countb (is_flag FLAG_ALL_DONE) (held (processes s'))
         + countb is_done (processes s'))%nat = 0%nat).
Proof.
  keep_start; destruct Hshape as (cs & j & HP & Hcs);
    try (exists cs, j; split; [exact HP|];
         intros Hne; specialize (Hcs Hne); lia).
  - (* a candidate is put: no flag is in the queue yet *)
    subst P. rewrite countb_app, countb_flag_ints, countb_flag_repeat in Hstops.
    assert (j = 0%nat) as -> by lia.
    exists (cs ++ [p]), 0%nat. split; [|lia].
    rewrite List.map_app. simpl. now rewrite !app_nil_r.
  - (* a flag is put behind the others *)
    exists cs, (S j). split; [|exact Hcs].
    rewrite HP, <- app_assoc. f_equal. symmetry. apply repeat_cons.
  - (* a worker takes the head of the queue *)
    destruct cs as [|c0 cs]; simpl in HP.
    + destruct j as [|j]; [discriminate|]. simpl in HP.
      injection HP as -> ->. exists [], j. split; [reflexivity|congruence].
    + injection HP as -> ->. exists cs, j. split; [reflexivity|].
      intros _. specialize (Hcs ltac:(discriminate)).
      rewrite is_flag_stop_int in *. lia.
Qed.

Lemma keep_tail s s' :
  transition NBR_PROCESSES s s' -> invariant lo hi NBR_PROCESSES s ->
  countb is_done (processes s') = length (processes s') ->
  definite s' = [] \/ last (definite s') = Some FLAG_WORKER_FINISHED_PROCESSING.
Proof.
  keep_start; intros Hall; try (apply Htail; exact Hall);
    try (pose proof (countb_le is_done l1); pose proof (countb_le is_done l2);
         lia);
    try (destruct D as [|y D]; [now left | right];
         destruct (Htail Hall) as [Hnil | Hlast]; [discriminate | exact Hlast]).
  right. apply last_snoc.
Qed.

Lemma keep_perm s s' :
  transition NBR_PROCESSES s s' -> invariant lo hi NBR_PROCESSES s ->
  Permutation
    (primes_of (main s')
     ++ List.filter not_finished_flag (definite s')
     ++ List.filter pushes (List.map PyInt (todo_of (main s')))
     ++ List.filter pushes (possible s')
     ++ List.filter pushes (held (processes s')))
    (List.filter pushes (List.map PyInt (number_range lo hi))).
Proof.
  keep_start; try exact Hperm; try lia;
    cbn [List.map] in *; rewrite ?List.filter_app in *; split_filters;
    cbn [List.filter] in *; unfold not_finished_flag in *;
    rewrite ?pushes_stop, ?is_flag_finished_finished, ?is_flag_finished_int in *;
    flag_facts; cbn [negb app] in *; rewrite ?app_nil_r in *;
    by_counting Hperm.
Qed.

Lemma keep_trace s s' :
  transition NBR_PROCESSES s s' -> invariant lo hi NBR_PROCESSES s ->
  work_puts (trace s') ++ List.map PyInt (todo_of (main s'))
  ++ repeat FLAG_ALL_DONE (stops_left NBR_PROCESSES (main s'))
  = List.map PyInt (number_range lo hi) ++ repeat FLAG_ALL_DONE NBR_PROCESSES.
Proof.
  keep_start; try exact Htrace; try lia;
    rewrite ?work_puts_snoc; cbn [work_puts flat_map app List.map repeat] in *;
    rewrite ?app_nil_r in *; rewrite <- ?app_assoc; exact Htrace.
Qed.

Lemma keep_fifo s s' :
  transition NBR_PROCESSES s s' -> invariant lo hi NBR_PROCESSES s ->
  work_gets (trace s') ++ possible s' = work_puts (trace s').
Proof.
  keep_start; try exact Hfifo;
    rewrite work_puts_snoc, work_gets_snoc;
    cbn [work_puts work_gets flat_map app] in *;
    rewrite ?app_nil_r, <- ?app_assoc; try exact Hfifo.
  - now rewrite app_assoc, Hfifo.
  - now rewrite app_assoc, Hfifo.
Qed.

Lemma transition_invariant s s' :
  transition NBR_PROCESSES s s' -> invariant lo hi NBR_PROCESSES s ->
  invariant lo hi NBR_PROCESSES s'.
Proof.
  intros Ht Hinv. split.
  - eapply keep_len; eassumption.
  - eapply keep_ctl; eassumption.
  - eapply keep_stops; eassumption.
  - eapply keep_done; eassumption.
  - eapply keep_shape; eassumption.
  - eapply keep_tail; eassumption.
  - eapply keep_perm; eassumption.
  - eapply keep_trace; eassumption.
  - eapply keep_fifo; eassumption.
Qed.

Lemma start_positive :
  start lo hi NBR_PROCESSES =
  State [] [] (repeat WGet NBR_PROCESSES) (CFill (number_range lo hi))
        [Created possible_primes_queue; Created definite_primes_queue].
Proof. unfold start. destruct NBR_PROCESSES; [lia | reflexivity]. Qed.

Lemma start_invariant : invariant lo hi NBR_PROCESSES (start lo hi NBR_PROCESSES).
Proof.
  rewrite start_positive.
  assert (Hh : forall k, held (repeat WGet k) = [])
    by (induction k; simpl; auto).
  assert (Hd : forall k, countb is_done (repeat WGet k) = 0%nat)
    by (induction k; simpl; auto).
  split; cbn [possible definite processes main trace stops_left
              finished_of primes_of todo_of control_ok];
    rewrite ?Hh, ?Hd, ?repeat_length; cbn [List.filter app countb length];
    rewrite ?app_nil_r; auto.
  - lia.
  - exists [], 0%nat. split; [reflexivity | congruence].
Qed.

Lemma run_invariant schedule s s' :
  run NBR_PROCESSES schedule s = Some s' ->
  invariant lo hi NBR_PROCESSES s -> invariant lo hi NBR_PROCESSES s'.
Proof.
  revert s. induction schedule as [|a rest IH]; intros s; simpl.
  - now intros [= ->].
  - destruct (step NBR_PROCESSES a s) as [s1|] eqn:Hs; [|discriminate].
    intros Hrun Hinv. apply (IH s1 Hrun).
    eapply transition_invariant; [eapply step_transition|]; eassumption.
Qed.

Lemma reachable_invariant s :
  reachable lo hi NBR_PROCESSES s -> invariant lo hi NBR_PROCESSES s.
Proof.
  intros [schedule Hrun]. eapply run_invariant; [exact Hrun|].
  apply start_invariant.
Qed.
End Preservation.

(** ** What the invariant says at the end *)

Lemma held_all_done (ws : list wstate) :
  Forall (fun w => is_done w = true) ws -> held ws = [].
Proof.
  induction 1 as [|w ws Hw _ IH]; [reflexivity|].
  rewrite held_cons, IH. destruct w; try discriminate. reflexivity.
Qed.

Lemma countb_finished_last (D : list pyobj) :
  last D = Some FLAG_WORKER_FINISHED_PROCESSING ->
  (0 < countb (is_flag FLAG_WORKER_FINISHED_PROCESSING) D)%nat.
Proof.
  intros H. apply last_Some in H. destruct H as [D' ->].
  rewrite countb_app, countb_cons, is_flag_finished_finished. lia.
Qed.

Section Completion.
Variables (lo hi : Z) (NBR_PROCESSES : nat).
Hypothesis NBR_positive : (0 < NBR_PROCESSES)%nat.

(** When the main script is past its [assert], every worker has left its
    loop, both queues are empty, exactly [NBR_PROCESSES] finished flags
    were counted, and [primes] holds the candidates a worker pushes. *)
Lemma complete_state s f primes :
  invariant lo hi NBR_PROCESSES s ->
  main s = CComplete f primes ->
  f = NBR_PROCESSES
  /\ Forall (fun w => w = WDone) (processes s)
  /\ possible s = [] /\ definite s = []
  /\ Permutation primes
       (List.filter pushes (List.map PyInt (number_range lo hi))).
Proof.
  intros [Hlen Hctl Hstops Hdone Hshape Htail Hperm Htrace Hfifo] Hmain.
  rewrite Hmain in *. cbn [stops_left finished_of primes_of todo_of control_ok] in *.
  subst f. pose proof (countb_le is_done (processes s)) as Hle.
  assert (Hall : countb is_done (processes s) = length (processes s)) by lia.
  assert (HD : definite s = []).
  { destruct (Htail Hall) as [HD | HD]; [exact HD|].
    apply countb_finished_last in HD. lia. }
  pose proof (countb_all _ _ Hall) as Hforall.
  pose proof (held_all_done _ Hforall) as Hheld.
  assert (HP : possible s = []).
  { destruct Hshape as (cs & k & HP & Hcs). rewrite HP in *.
    rewrite countb_app, countb_flag_ints, countb_flag_repeat in Hstops.
    destruct cs as [|c cs]; [|specialize (Hcs ltac:(discriminate)); lia].
    replace k with 0%nat by lia. reflexivity. }
  split; [reflexivity|]. split.
  { eapply List.Forall_impl; [|exact Hforall].
    intros w Hw. destruct w; try discriminate. reflexivity. }
  split; [exact HP|]. split; [exact HD|].
  rewrite HD, HP, Hheld in Hperm. cbn [List.map List.filter app] in Hperm.
  now rewrite app_nil_r in Hperm.
Qed.

(** The [assert] after the loop never fails. *)
Lemma never_assertion_error s e :
  invariant lo hi NBR_PROCESSES s -> main s <> CRaised e.
Proof.
  intros [_ Hctl _ _ _ _ _ _ _] Hmain. rewrite Hmain in Hctl. exact Hctl.
Qed.
End Completion.

(** ** Runs without a crash *)

Lemma crashes_stop : crashes FLAG_ALL_DONE = false.
Proof. reflexivity. Qed.

Lemma start_crash_free (lo hi : Z) (NBR_PROCESSES : nat) :
  Forall (fun n => crashes (PyInt n) = false) (number_range lo hi) ->
  crash_free (start lo hi NBR_PROCESSES).
Proof.
  intros H.
  assert (Hh : forall k, held (repeat WGet k) = [])
    by (induction k; simpl; auto).
  assert (Hc : forall k, countb is_crashed (repeat WGet k) = 0%nat)
    by (induction k; simpl; auto).
  unfold start. destruct NBR_PROCESSES as [|n]; split;
    cbn [possible definite processes main todo_of]; rewrite ?Hh, ?Hc; auto.
Qed.

Lemma transition_crash_free (NBR_PROCESSES : nat) (s s' : state) :
  transition NBR_PROCESSES s s' -> crash_free s -> crash_free s'.
Proof.
  intros Ht [Htodo Hposs Hheld Halive].
  destruct Ht; count_norm; rewrite ?Forall_app, ?Forall_cons in *;
    try match goal with
        | H : worker_body ?n = Crash |- _ =>
            exfalso; unfold crashes in Hheld; rewrite H in Hheld;
            destruct Hheld as (_ & Habs & _); discriminate Habs
        end;
    split; count_norm; rewrite ?Forall_app, ?Forall_cons;
    repeat split; try tauto; try lia; try constructor; try apply crashes_stop.
Qed.

Lemma run_crash_free (NBR_PROCESSES : nat) (schedule : list actor) (s s' : state) :
  run NBR_PROCESSES schedule s = Some s' -> crash_free s -> crash_free s'.
Proof.
  revert s. induction schedule as [|a rest IH]; intros s; simpl.
  - now intros [= ->].
  - destruct (step NBR_PROCESSES a s) as [s1|] eqn:Hs; [|discriminate].
    intros Hrun Hcf. apply (IH s1 Hrun).
    eapply transition_crash_free; [eapply step_transition|]; eassumption.
Qed.

(** ** No deadlock *)

Lemma held_nonempty (ws : list wstate) :
  held ws <> [] -> exists i n, ws !! i = Some (WGot n).
Proof.
  induction ws as [|w ws IH]; [intros H; now destruct H|].
  rewrite held_cons. destruct w as [|n| |]; cbn [holds app]; intros H;
    try (destruct (IH H) as (i & m & Hi); exists (S i), m; exact Hi).
  exists 0%nat, n. reflexivity.
Qed.

Lemma find_getter (ws : list wstate) :
  (countb is_done ws < length ws)%nat ->
  countb is_crashed ws = 0%nat ->
  held ws = [] ->
  exists i, ws !! i = Some WGet.
Proof.
  induction ws as [|w ws IH]; cbn [length]; [rewrite countb_nil; lia|].
  rewrite !countb_cons, held_cons.
  destruct w as [|n| |]; cbn [is_done is_crashed holds app]; intros Hd Hc Hh.
  - exists 0%nat. reflexivity.
  - discriminate.
  - destruct IH as [i Hi]; [lia | lia | exact Hh |]. exists (S i). exact Hi.
  - lia.
Qed.

Section Progress.
Variables (lo hi : Z) (NBR_PROCESSES : nat).
Hypothesis NBR_positive : (0 < NBR_PROCESSES)%nat.

(** As long as no worker has crashed, either the main script is past its
    [assert] or some process can take a step. *)
Lemma progress s :
  invariant lo hi NBR_PROCESSES s ->
  countb is_crashed (processes s) = 0%nat ->
  (exists primes, main s = CComplete NBR_PROCESSES primes)
  \/ (exists a s', step NBR_PROCESSES a s = Some s').
Proof.
  intros [Hlen Hctl Hstops Hdone Hshape Htail Hperm Htrace Hfifo] Halive.
  destruct s as [P D ws c t].
  cbn [possible definite processes main trace] in *.
  destruct c as [[|p todo]|[|k]|f primes|f primes|f primes|e];
    cbn [stops_left finished_of control_ok] in *;
    try (right; exists Main; cbn [step]; unfold main_step;
         cbn [main definite]; eauto; fail).
  - (* draining *)
    destruct D as [|x D].
    + right. rewrite countb_nil in Hdone.
      destruct (held ws) as [|h hs] eqn:Hheld.
      * rewrite countb_nil in Hstops.
        destruct P as [|n P]; [rewrite countb_nil in Hstops; lia|].
        destruct (find_getter ws) as [i Hi]; [lia | exact Halive | exact Hheld |].
        exists (Worker i). cbn [step]. unfold worker_step.
        cbn [processes possible]. rewrite Hi. eauto.
      * destruct (held_nonempty ws) as (i & n & Hi); [congruence|].
        exists (Worker i). cbn [step]. unfold worker_step.
        cbn [processes]. rewrite Hi. destruct (worker_body n); eauto.
    + right. exists Main. cbn [step]. unfold main_step. cbn [main definite].
      destruct (py_eq x FLAG_WORKER_FINISHED_PROCESSING); [|eauto].
      destruct (S f =? NBR_PROCESSES)%nat; eauto.
  - (* the assert *)
    right. exists Main. cbn [step]. unfold main_step. cbn [main].
    destruct (f =? NBR_PROCESSES)%nat; eauto.
  - left. subst f. eauto.
  - contradiction.
Qed.

(** From a crash-free state every run can be continued to the end. *)
Lemma reach_complete s :
  invariant lo hi NBR_PROCESSES s -> crash_free s ->
  exists schedule s' primes,
    run NBR_PROCESSES schedule s = Some s'
    /\ main s' = CComplete NBR_PROCESSES primes.
Proof.
  remember (fuel_of NBR_PROCESSES s) as m eqn:Hm.
  revert s Hm. induction m as [m IH] using lt_wf_ind. intros s Hm Hinv Hcf.
  destruct (progress s Hinv (cf_alive s Hcf)) as [[primes Hp] | (a & s1 & Hs)].
  - exists [], s, primes. split; [reflexivity | exact Hp].
  - pose proof (step_transition _ _ _ _ Hs) as Ht.
    destruct (IH (fuel_of NBR_PROCESSES s1)) with (s := s1)
      as (schedule & s' & primes & Hrun & Hp).
    + subst m. now apply transition_fuel.
    + reflexivity.
    + eapply transition_invariant; eassumption.
    + eapply transition_crash_free; eassumption.
    + exists (a :: schedule), s', primes. split; [|exact Hp].
      cbn [run]. rewrite Hs. exact Hrun.
Qed.
End Progress.

(** ** Trial division and primality *)

Lemma odd_mod_2 (n : Z) : Z.odd n = true <-> n mod 2 <> 0.
Proof. rewrite Zmod_odd. destruct (Z.odd n); split; congruence || lia. Qed.

Lemma even_mod_2 (n : Z) : Z.even n = true <-> n mod 2 = 0.
Proof. rewrite Zmod_even. destruct (Z.even n); split; congruence || lia. Qed.

(** What the loop of [check_prime] does not find does not divide. *)
Lemma loop_finds (n r f : Z) :
  divisor_found n (py_range 3 (r + 1) 2) = false ->
  3 <= f <= r -> Z.odd f = true -> n mod f <> 0.
Proof.
  intros Hfound Hf Hodd Hm.
  apply Bool.not_true_iff_false in Hfound. apply Hfound.
  apply divisor_found_true. exists f. split; [|exact Hm].
  apply py_range_In; [lia|]. split; [lia|]. now apply odd_step_from_3.
Qed.

(** Below the square of [2^53 + 5] the computed root serves as well as the
    integer square root: it reaches every divisor below [2^53] that has
    its square below [n], and the two odd numbers from [2^53] to
    [2^53 + 4] have the divisors 3 and 5. *)
Lemma check_prime_true_iff (n : Z) :
  0 <= n < (2 ^ 53 + 5) * (2 ^ 53 + 5) ->
  check_prime n = Ok true <-> Z.odd n = true /\ no_odd_divisor n.
Proof.
  intros Hn.
  assert (Hfits : (2 ^ 53 + 5) * (2 ^ 53 + 5) < 2 ^ 1023)
    by (vm_compute; reflexivity).
  assert (H53 : 2 ^ 53 = 9007199254740992) by reflexivity.
  destruct (int_math_sqrt_bounds n ltac:(lia))
    as (r & Hr & Hr0 & Hreach & Hbelow).
  rewrite odd_mod_2. unfold check_prime.
  destruct (Z.eqb_spec (n mod 2) 0) as [E|E];
    [split; [discriminate | tauto]|].
  rewrite Hr.
  destruct (divisor_found n (py_range 3 (r + 1) 2)) eqn:Hfound.
  - split; [discriminate|]. intros [_ Hno]. exfalso.
    apply divisor_found_true in Hfound. destruct Hfound as (i & Hi & Hm).
    apply py_range_In in Hi; [|lia]. destruct Hi as [Hi _].
    assert (Hn1 : 1 <= n).
    { destruct (Z.eq_dec n 0) as [->|]; [exfalso; apply E; reflexivity | lia]. }
    apply Z.mod_divide in Hm; [|lia].
    assert (Hin : i <= n) by (apply Z.divide_pos_le; [lia | exact Hm]).
    apply (proj1 (no_odd_divisor_no_divisor n Hn1 E) Hno i);
      [lia | exact Hm].
  - split; [|reflexivity]. intros _. split; [exact E|].
    intros d Hd Hodd Hm.
    pose proof (Z.sqrt_spec n ltac:(lia)) as Hs. cbv zeta in Hs.
    assert (Hdd : d * d <= n) by nia.
    destruct (Z_lt_ge_dec d (2 ^ 53)) as [Hsmall|Hbig].
    + refine (loop_finds n r d Hfound _ Hodd Hm).
      split; [lia|]. apply Hreach; [lia | exact Hdd].
    + assert (Hd5 : d < 2 ^ 53 + 5) by nia.
      assert (Hfactor : exists f, 3 <= f <= 5 /\ Z.odd f = true /\ (f | d)).
      { apply Z.odd_spec in Hodd. destruct Hodd as [m Hm'].
        assert (d = 2 ^ 53 + 1 \/ d = 2 ^ 53 + 3) as [-> | ->] by lia.
        - exists 3. split; [lia|]. split; [reflexivity|].
          exists 3002399751580331. reflexivity.
        - exists 5. split; [lia|]. split; [reflexivity|].
          exists 1801439850948199. reflexivity. }
      destruct Hfactor as (f & Hf & Hfodd & Hfd).
      apply Z.mod_divide in Hm; [|lia].
      refine (loop_finds n r f Hfound _ Hfodd _).
      * split; [lia|]. apply Hreach; [lia | nia].
      * apply Z.mod_divide; [lia|]. now apply (Z.divide_trans f d n).
Qed.

Lemma check_prime_odd_prime (n : Z) :
  3 <= n < (2 ^ 53 + 5) * (2 ^ 53 + 5) -> Z.odd n = true ->
  (check_prime n = Ok true <-> Z.prime n).
Proof.
  intros Hn Hodd. rewrite check_prime_true_iff by lia.
  pose proof (proj1 (odd_mod_2 n) Hodd) as Hmod.
  rewrite (no_odd_divisor_no_divisor n) by (lia || exact Hmod).
  unfold Z.prime. split.
  - intros [_ H]. split; [lia | exact H].
  - intros [_ H]. split; [exact Hodd | exact H].
Qed.

(** ** A prime beyond the exact range of [math.sqrt] *)

Lemma uint63_add_small (d : Uint63.int) (k : positive) :
  Uint63.to_Z d + Z.pos k < 2 ^ 62 ->
  Uint63.to_Z (Uint63.add d (Uint63.of_pos k)) = Uint63.to_Z d + Z.pos k.
Proof.
  intros H. pose proof (Uint63.to_Z_bounded d) as Hd.
  rewrite Uint63.add_spec.
  change (Uint63.of_pos k) with (Uint63.of_Z (Z.pos k)).
  rewrite Uint63.of_Z_spec.
  change Uint63.wB with (2 ^ 63) in *.
  assert (2 ^ 62 < 2 ^ 63) by reflexivity.
  rewrite (Z.mod_small (Z.pos k)) by lia.
  apply Z.mod_small. lia.
Qed.

Lemma uint63_mod_zero (p d : Uint63.int) :
  Uint63.eqb (Uint63.mod p d) (Uint63.of_Z 0) = false ->
  Uint63.to_Z p mod Uint63.to_Z d <> 0.
Proof.
  intros H E. rewrite <- Uint63.mod_spec in E.
  assert (Uint63.mod p d = Uint63.of_Z 0) as E'
    by (apply Uint63.to_Z_inj; rewrite E; reflexivity).
  apply Uint63.eqb_spec in E'. congruence.
Qed.

Lemma odd_divisor_free_spec (p : Uint63.int) (n : positive) :
  forall d : Uint63.int,
    Uint63.to_Z d + 2 * Z.pos n < 2 ^ 62 ->
    odd_divisor_free p d n = true ->
    forall k, 0 <= k < Z.pos n ->
      Uint63.to_Z p mod (Uint63.to_Z d + 2 * k) <> 0.
Proof.
  induction n as [n IH|n IH|]; intros d Hd Hfree k Hk; cbn [odd_divisor_free] in Hfree.
  - apply andb_prop in Hfree. destruct Hfree as [Hfree H2].
    apply andb_prop in Hfree. destruct Hfree as [H0 H1].
    apply Bool.negb_true_iff in H0.
    destruct (Z.eq_dec k 0) as [->|Hk0].
    { rewrite Z.add_0_r. now apply uint63_mod_zero. }
    destruct (Z_lt_ge_dec k (1 + Z.pos n)) as [Hlt|Hge].
    + specialize (IH (Uint63.add d (Uint63.of_Z 2))).
      change (Uint63.of_Z 2) with (Uint63.of_pos 2) in IH.
      rewrite uint63_add_small in IH by lia.
      replace (Uint63.to_Z d + 2 * k)
        with (Uint63.to_Z d + 2 + 2 * (k - 1)) by lia.
      apply IH; [lia | exact H1 | lia].
    + specialize (IH (Uint63.add d (Uint63.of_pos (xO (Pos.succ n))))).
      rewrite uint63_add_small in IH by lia.
      replace (Uint63.to_Z d + 2 * k)
        with (Uint63.to_Z d + Z.pos (xO (Pos.succ n)) + 2 * (k - (1 + Z.pos n)))
        by lia.
      apply IH; [lia | exact H2 | lia].
  - apply andb_prop in Hfree. destruct Hfree as [H1 H2].
    destruct (Z_lt_ge_dec k (Z.pos n)) as [Hlt|Hge].
    + apply IH; [lia | exact H1 | lia].
    + specialize (IH (Uint63.add d (Uint63.of_pos (xO n)))).
      rewrite uint63_add_small in IH by lia.
      replace (Uint63.to_Z d + 2 * k)
        with (Uint63.to_Z d + Z.pos (xO n) + 2 * (k - Z.pos n)) by lia.
      apply IH; [lia | exact H2 | lia].
  - apply Bool.negb_true_iff in Hfree.
    assert (k = 0) as -> by lia. rewrite Z.add_0_r.
    now apply uint63_mod_zero.
Qed.

Lemma no_odd_divisor_2_53_5 : no_odd_divisor (2 ^ 53 + 5).
Proof.
  intros d Hd Hodd.
  change (Z.sqrt (2 ^ 53 + 5)) with 94906265 in Hd.
  apply Z.odd_spec in Hodd. destruct Hodd as [m ->].
  replace (2 * m + 1) with (3 + 2 * (m - 1)) by lia.
  apply (odd_divisor_free_spec (Uint63.of_Z (2 ^ 53 + 5)) 47453132
           (Uint63.of_Z 3)).
  - reflexivity.
  - vm_compute. reflexivity.
  - lia.
Qed.

Lemma prime_2_53_5 : Z.prime (2 ^ 53 + 5).
Proof.
  split; [reflexivity|].
  apply (no_odd_divisor_no_divisor (2 ^ 53 + 5));
    [discriminate | discriminate | exact no_odd_divisor_2_53_5].
Qed.

(** The square of a prime passes the loop when the computed root stays
    below the prime. *)
Lemma check_prime_square (p r : Z) :
  Z.prime p -> 3 <= p -> int_math_sqrt (p * p) = Ok r -> r < p ->
  check_prime (p * p) = Ok true.
Proof.
  intros Hp H3 Hr Hlt. unfold check_prime.
  assert (Hodd : (p * p) mod 2 <> 0).
  { intros E. apply Z.mod_divide in E; [|lia].
    apply (Z.divide_prime_mul p p 2 Z.prime_2) in E.
    assert (Hd : (2 | p)) by tauto.
    destruct Hp as [_ Hp]. apply (Hp 2); [lia | exact Hd]. }
  destruct (Z.eqb_spec ((p * p) mod 2) 0) as [E|_]; [contradiction|].
  rewrite Hr.
  destruct (divisor_found (p * p) (py_range 3 (r + 1) 2)) eqn:Hfound;
    [exfalso | reflexivity].
  apply divisor_found_true in Hfound. destruct Hfound as (i & Hi & Hm).
  apply py_range_In in Hi; [|lia]. destruct Hi as [Hi _].
  apply Z.mod_divide in Hm; [|lia].
  assert (Hco : Z.gcd i p = 1).
  { rewrite Z.gcd_comm. apply Z.coprime_prime_small; [exact Hp | lia]. }
  apply Z.gauss in Hm; [|exact Hco].
  destruct Hp as [_ Hp]. apply (Hp i); [lia | exact Hm].
Qed.

Lemma int_math_sqrt_square_2_53_5 :
  int_math_sqrt ((2 ^ 53 + 5) * (2 ^ 53 + 5)) = Ok (2 ^ 53 + 4).
Proof. vm_compute. reflexivity. Qed.

(** ** A worker that has left its loop stays out *)

Lemma done_stable (NBR_PROCESSES : nat) (a : actor) (s s' : state) (i : nat) :
  step NBR_PROCESSES a s = Some s' ->
  processes s !! i = Some WDone -> processes s' !! i = Some WDone.
Proof.
  destruct a as [|j]; cbn [step].
  - unfold main_step.
    destruct (main s) as [[|p todo]|[|k]|f primes|f primes|f primes|e];
      try discriminate; try (intros [= <-]; exact id).
    + destruct (definite s) as [|x D]; [discriminate|].
      destruct (py_eq x FLAG_WORKER_FINISHED_PROCESSING);
        [destruct (S f =? NBR_PROCESSES)%nat|]; intros [= <-]; exact id.
    + destruct (f =? NBR_PROCESSES)%nat; intros [= <-]; exact id.
  - unfold worker_step. intros Hstep Hi.
    destruct (decide (j = i)) as [->|Hne].
    + rewrite Hi in Hstep. discriminate.
    + destruct (processes s !! j) as [[|n| |]|]; try discriminate.
      * destruct (possible s); [discriminate|]. injection Hstep as <-.
        cbn [processes got_possible]. now rewrite list_lookup_insert_ne.
      * destruct (worker_body n); injection Hstep as <-;
          cbn [processes put_definite become];
          now rewrite list_lookup_insert_ne.
Qed.

Lemma run_done_stable (NBR_PROCESSES : nat) (schedule : list actor)
    (s s' : state) (i : nat) :
  run NBR_PROCESSES schedule s = Some s' ->
  processes s !! i = Some WDone -> processes s' !! i = Some WDone.
Proof.
  revert s. induction schedule as [|a rest IH]; intros s; simpl.
  - now intros [= ->].
  - destruct (step NBR_PROCESSES a s) as [s1|] eqn:Hs; [|discriminate].
    intros Hrun Hi. apply (IH s1 Hrun). eapply done_stable; eassumption.
Qed.

Lemma worker_step_done (s : state) (i : nat) :
  processes s !! i = Some WDone -> worker_step i s = None.
Proof. intros H. unfold worker_step. now rewrite H. Qed.

(** * The claims *)

(** C10. [check_prime] is not primality at the small inputs:
    [check_prime(1)] is [True] although 1 is not prime, and every even
    number, 2 included, gets [False]; on every odd number from 3 up to
    the square of [2^53 + 5], that square left out, it returns [True]
    exactly for the primes (and [False] for the others): so far the
    rounding of [math.sqrt] does no harm.  From [2^1024] on an odd number
    makes [math.sqrt] raise [OverflowError]. *)
Theorem check_prime_edge_cases :
  check_prime 1 = Ok true /\ ~ Z.prime 1
  /\ (forall n, Z.even n = true -> check_prime n = Ok false)
  /\ check_prime 2 = Ok false /\ Z.prime 2
  /\ (forall n, 3 <= n < (2 ^ 53 + 5) * (2 ^ 53 + 5) -> Z.odd n = true ->
        (Z.prime n -> check_prime n = Ok true)
        /\ (~ Z.prime n -> check_prime n = Ok false))
  /\ (forall n, 2 ^ 1024 <= n -> Z.odd n = true ->
        check_prime n = Raise OverflowError).
Proof.
  split; [reflexivity|]. split; [exact Z.not_prime_1|].
  split; [intros n Hn; apply check_prime_even, even_mod_2, Hn|].
  split; [reflexivity|]. split; [exact Z.prime_2|]. split.
  - intros n Hn Hodd. pose proof (check_prime_odd_prime n Hn Hodd) as Hiff.
    split; [apply Hiff|].
    assert (Hfits : (2 ^ 53 + 5) * (2 ^ 53 + 5) < 2 ^ 1023)
      by (vm_compute; reflexivity).
    intros Hnp. destruct (check_prime_returns n ltac:(lia)) as [[|] Hb].
    + exfalso. apply Hnp, Hiff, Hb.
    + exact Hb.
  - intros n Hn Hodd. apply check_prime_overflow; [lia | now apply odd_mod_2].
Qed.

Lemma check_prime_edge_cases_witness :
  check_prime 10 = Ok false /\ check_prime 9 = Ok false
  /\ check_prime (2 ^ 1024 + 1) = Raise OverflowError.
Proof.
  destruct check_prime_edge_cases as (_ & _ & Heven & _ & _ & Hodd & Hbig).
  split; [|split].
  - apply (Heven 10). reflexivity.
  - apply (Hodd 9); [lia | reflexivity |].
    intros [_ H]. apply (H 3); [lia | exists 3; reflexivity].
  - apply (Hbig (2 ^ 1024 + 1)); [lia | reflexivity].
Defined.

(** C10, at the square of the prime [2^53 + 5] the function is not
    primality on the odd numbers either: the square is odd and composite,
    [int(math.sqrt(n))] comes out as [2^53 + 4], the loop stops before
    the divisor and the function returns [True]; and for the odd
    composite [3^1000] the function does not return at all, [math.sqrt]
    raises [OverflowError].  So it is not on every odd number from 3 on
    that [True] is returned exactly for the primes. *)
Lemma odd_composite_accepted :
  3 <= (2 ^ 53 + 5) * (2 ^ 53 + 5)
  /\ Z.odd ((2 ^ 53 + 5) * (2 ^ 53 + 5)) = true
  /\ ~ Z.prime ((2 ^ 53 + 5) * (2 ^ 53 + 5))
  /\ check_prime ((2 ^ 53 + 5) * (2 ^ 53 + 5)) = Ok true
  /\ 3 <= 3 ^ 1000
  /\ Z.odd (3 ^ 1000) = true
  /\ ~ Z.prime (3 ^ 1000)
  /\ check_prime (3 ^ 1000) = Raise OverflowError
  /\ ~ (forall n, 3 <= n -> Z.odd n = true ->
          (check_prime n = Ok true <-> Z.prime n)).
Proof.
  assert (Hsquare : check_prime ((2 ^ 53 + 5) * (2 ^ 53 + 5)) = Ok true).
  { apply (check_prime_square _ (2 ^ 53 + 4));
      [exact prime_2_53_5 | discriminate
      | exact int_math_sqrt_square_2_53_5 | reflexivity]. }
  split; [discriminate|]. split; [reflexivity|].
  split; [apply Z.not_prime_square|].
  split; [exact Hsquare|].
  split; [vm_compute; discriminate|]. split; [vm_compute; reflexivity|].
  split; [|split; [vm_compute; reflexivity|]].
  - intros [_ H]. apply (H 3); [split; vm_compute; reflexivity|].
    exists (3 ^ 999). vm_compute. reflexivity.
  - intros Hall.
    apply (Z.not_prime_square (2 ^ 53 + 5)).
    apply (Hall ((2 ^ 53 + 5) * (2 ^ 53 + 5)));
      [discriminate | reflexivity | exact Hsquare].
Qed.

(** C9. The stop flag is no candidate: for every integer [n] the worker's
    test [n == FLAG_ALL_DONE] is false, so the worker never answers a
    candidate with the finished flag; and the test
    [new_result == FLAG_WORKER_FINISHED_PROCESSING] of the main script is
    false too, so a prime read from the result queue is appended to
    [primes] and leaves the counter as it is. *)
Theorem flags_are_not_candidates (n : Z) :
  py_eq (PyInt n) FLAG_ALL_DONE = false
  /\ py_eq (PyInt n) FLAG_WORKER_FINISHED_PROCESSING = false
  /\ (forall flag, worker_body (PyInt n) <> PutAndBreak flag)
  /\ (forall NBR_PROCESSES P D ws t finished primes,
        main_step NBR_PROCESSES
          (State P (PyInt n :: D) ws (CDrain finished primes) t)
        = Some (State P D ws (CDrain finished (primes ++ [PyInt n]))
                      (t ++ [GetEv definite_primes_queue (PyInt n)]))).
Proof.
  split; [reflexivity|]. split; [reflexivity|]. split; [|reflexivity].
  intros flag H. apply worker_body_break in H. destruct H as [H _].
  discriminate H.
Qed.

Lemma flags_are_not_candidates_witness :
  py_eq (PyInt 100000007) FLAG_ALL_DONE = false
  /\ worker_body (PyInt 100000007) <> PutAndBreak FLAG_WORKER_FINISHED_PROCESSING.
Proof.
  destruct (flags_are_not_candidates 100000007) as (Hstop & _ & Hbody & _).
  split; [exact Hstop | apply Hbody].
Defined.

(** C2. A worker that got [x] from the work queue: if [x] equals the stop
    flag it puts one finished flag on the result queue (the queue grows by
    that one value, nothing else changes) and has left its loop, and in
    whatever follows it stays there and can take no further step; if [x]
    is an even candidate it puts nothing; if [x] is a candidate [n] from
    0 up to the square of [2^53 + 5], that square left out, it puts [n]
    on the result queue exactly when [n] is odd and no odd number from 3
    up to the integer square root divides it, and otherwise puts nothing;
    in these cases it goes back to [get]. *)
Theorem worker_contract (s : state) (i : nat) (x : pyobj) :
  processes s !! i = Some (WGot x) ->
  (py_eq x FLAG_ALL_DONE = true ->
     worker_step i s
     = Some {| possible := possible s;
               definite := definite s ++ [FLAG_WORKER_FINISHED_PROCESSING];
               processes := <[i := WDone]> (processes s);
               main := main s;
               trace := trace s ++ [PutEv definite_primes_queue
                                      FLAG_WORKER_FINISHED_PROCESSING] |}
     /\ forall s1 NBR_PROCESSES schedule s',
          worker_step i s = Some s1 ->
          run NBR_PROCESSES schedule s1 = Some s' ->
          processes s' !! i = Some WDone /\ worker_step i s' = None)
  /\ (forall n, x = PyInt n ->
        (Z.even n = true ->
           worker_step i s
           = Some {| possible := possible s;
                     definite := definite s;
                     processes := <[i := WGet]> (processes s);
                     main := main s;
                     trace := trace s |})
        /\ (0 <= n < (2 ^ 53 + 5) * (2 ^ 53 + 5) ->
            (Z.odd n = true /\ no_odd_divisor n ->
               worker_step i s
               = Some {| possible := possible s;
                         definite := definite s ++ [PyInt n];
                         processes := <[i := WGet]> (processes s);
                         main := main s;
                         trace := trace s
                                    ++ [PutEv definite_primes_queue (PyInt n)] |})
            /\ ((exists d, 3 <= d <= Z.sqrt n /\ Z.odd d = true /\ n mod d = 0) ->
                worker_step i s
                = Some {| possible := possible s;
                          definite := definite s;
                          processes := <[i := WGet]> (processes s);
                          main := main s;
                          trace := trace s |}))).
Proof.
  intros Hi. unfold worker_step. rewrite Hi. split.
  - intros Hx. unfold worker_body. rewrite Hx. split; [reflexivity|].
    intros s1 NBR_PROCESSES schedule s' [= <-] Hrun.
    assert (Hd : processes s' !! i = Some WDone).
    { eapply run_done_stable; [exact Hrun|].
      cbn [processes put_definite]. apply list_lookup_insert_eq.
      eapply lookup_lt_Some. exact Hi. }
    split; [exact Hd | now apply worker_step_done].
  - intros n ->. rewrite worker_body_check_prime. split.
    + intros Heven. apply even_mod_2 in Heven.
      now rewrite check_prime_even.
    + intros Hn. split.
      * intros H. apply check_prime_true_iff in H; [|exact Hn]. now rewrite H.
      * intros (d & Hd & Hdo & Hm).
        assert (Hfits : (2 ^ 53 + 5) * (2 ^ 53 + 5) < 2 ^ 1023)
          by (vm_compute; reflexivity).
        destruct (check_prime_returns n ltac:(lia)) as [[|] Hb];
          [|now rewrite Hb].
        exfalso. apply check_prime_true_iff in Hb; [|exact Hn].
        destruct Hb as [_ Hno]. exact (Hno d Hd Hdo Hm).
Qed.

Lemma worker_contract_witness :
  worker_step 1 (State [] [PyInt 11] [WGet; WGot FLAG_ALL_DONE] (CDrain 0 []) [])
  = Some (State [] [PyInt 11; FLAG_WORKER_FINISHED_PROCESSING] [WGet; WDone]
                (CDrain 0 [])
                [PutEv definite_primes_queue FLAG_WORKER_FINISHED_PROCESSING])
  /\ worker_step 0 (State [FLAG_ALL_DONE] [PyInt 11] [WGot (PyInt 13)]
                      (CDrain 0 []) [])
     = Some (State [FLAG_ALL_DONE] [PyInt 11; PyInt 13] [WGet] (CDrain 0 [])
                   [PutEv definite_primes_queue (PyInt 13)])
  /\ worker_step 0 (State [FLAG_ALL_DONE] [PyInt 11] [WGot (PyInt 15)]
                      (CDrain 0 []) [])
     = Some (State [FLAG_ALL_DONE] [PyInt 11] [WGet] (CDrain 0 []) [])
  /\ worker_step 0 (State [FLAG_ALL_DONE] [PyInt 11] [WGot (PyInt 16)]
                      (CDrain 0 []) [])
     = Some (State [FLAG_ALL_DONE] [PyInt 11] [WGet] (CDrain 0 []) []).
Proof.
  split; [|split; [|split]].
  - destruct (worker_contract
                (State [] [PyInt 11] [WGet; WGot FLAG_ALL_DONE] (CDrain 0 []) [])
                1%nat FLAG_ALL_DONE eq_refl) as [Hstop _].
    exact (proj1 (Hstop eq_refl)).
  - destruct (worker_contract
                (State [FLAG_ALL_DONE] [PyInt 11] [WGot (PyInt 13)]
                   (CDrain 0 []) [])
                0%nat (PyInt 13) eq_refl) as [_ Hcand].
    destruct (Hcand 13 eq_refl) as [_ Hodd].
    destruct (Hodd ltac:(lia)) as [Hput _]. apply Hput.
    split; [reflexivity|]. intros d Hd. change (Z.sqrt 13) with 3 in Hd.
    assert (d = 3) as -> by lia. intros _. discriminate.
  - destruct (worker_contract
                (State [FLAG_ALL_DONE] [PyInt 11] [WGot (PyInt 15)]
                   (CDrain 0 []) [])
                0%nat (PyInt 15) eq_refl) as [_ Hcand].
    destruct (Hcand 15 eq_refl) as [_ Hodd].
    destruct (Hodd ltac:(lia)) as [_ Hskip]. apply Hskip.
    exists 3. change (Z.sqrt 15) with 3.
    split; [lia|]. split; reflexivity.
  - destruct (worker_contract
                (State [FLAG_ALL_DONE] [PyInt 11] [WGot (PyInt 16)]
                   (CDrain 0 []) [])
                0%nat (PyInt 16) eq_refl) as [_ Hcand].
    destruct (Hcand 16 eq_refl) as [Heven _]. apply Heven. reflexivity.
Defined.

(** C2, from the square of [2^53 + 5] on and below 0 the worker does not
    follow trial division up to the integer square root.  It pushes the
    square of the prime [2^53 + 5], an odd number that the odd number
    [2^53 + 5], its integer square root, divides.  On the odd number
    [3^1000], which 3 divides, it dies of [OverflowError]: it pushes
    nothing, but does not go back to [get] either.  And on [-1], an odd
    number for which there is no odd number from 3 on to try, it dies of
    [ValueError] and pushes nothing.  So it is not for every candidate
    that a step of the worker pushes it exactly when it is odd with no
    odd divisor up to the integer square root. *)
Lemma worker_pushes_an_odd_square :
  worker_step 0
    (State [] [] [WGot (PyInt ((2 ^ 53 + 5) * (2 ^ 53 + 5)))] (CDrain 0 []) [])
  = Some (State [] [PyInt ((2 ^ 53 + 5) * (2 ^ 53 + 5))] [WGet] (CDrain 0 [])
            [PutEv definite_primes_queue
               (PyInt ((2 ^ 53 + 5) * (2 ^ 53 + 5)))])
  /\ (exists d, 3 <= d <= Z.sqrt ((2 ^ 53 + 5) * (2 ^ 53 + 5))
               /\ Z.odd d = true
               /\ ((2 ^ 53 + 5) * (2 ^ 53 + 5)) mod d = 0)
  /\ worker_step 0 (State [] [] [WGot (PyInt (3 ^ 1000))] (CDrain 0 []) [])
     = Some (State [] [] [WCrashed] (CDrain 0 []) [])
  /\ 3 <= Z.sqrt (3 ^ 1000)
  /\ (3 ^ 1000) mod 3 = 0
  /\ worker_step 0 (State [] [] [WGot (PyInt (-1))] (CDrain 0 []) [])
     = Some (State [] [] [WCrashed] (CDrain 0 []) [])
  /\ Z.odd (-1) = true
  /\ Z.sqrt (-1) = 0
  /\ ~ (forall s i n s',
          processes s !! i = Some (WGot (PyInt n)) ->
          worker_step i s = Some s' ->
          (definite s' = definite s ++ [PyInt n]
           <-> Z.odd n = true /\ no_odd_divisor n)).
Proof.
  assert (Hsquare :
            worker_step 0
              (State [] [] [WGot (PyInt ((2 ^ 53 + 5) * (2 ^ 53 + 5)))]
                 (CDrain 0 []) [])
            = Some (State [] [PyInt ((2 ^ 53 + 5) * (2 ^ 53 + 5))] [WGet]
                      (CDrain 0 [])
                      [PutEv definite_primes_queue
                         (PyInt ((2 ^ 53 + 5) * (2 ^ 53 + 5)))])).
  { unfold worker_step. cbn [processes lookup list_lookup].
    rewrite worker_body_check_prime.
    rewrite (check_prime_square _ (2 ^ 53 + 4) prime_2_53_5);
      [reflexivity | discriminate
      | exact int_math_sqrt_square_2_53_5 | reflexivity]. }
  assert (Hdivisor : exists d, 3 <= d <= Z.sqrt ((2 ^ 53 + 5) * (2 ^ 53 + 5))
                               /\ Z.odd d = true
                               /\ ((2 ^ 53 + 5) * (2 ^ 53 + 5)) mod d = 0).
  { exists (2 ^ 53 + 5). split; [vm_compute; split; discriminate|].
    split; vm_compute; reflexivity. }
  split; [exact Hsquare|]. split; [exact Hdivisor|].
  split; [vm_compute; reflexivity|]. split; [vm_compute; discriminate|].
  split; [vm_compute; reflexivity|]. split; [reflexivity|].
  split; [reflexivity|]. split; [reflexivity|].
  intros Hall. destruct Hdivisor as (d & Hd & Hodd & Hm).
  destruct (proj1 (Hall (State [] []
                           [WGot (PyInt ((2 ^ 53 + 5) * (2 ^ 53 + 5)))]
                           (CDrain 0 []) [])
                     0%nat ((2 ^ 53 + 5) * (2 ^ 53 + 5)) _ eq_refl Hsquare)
              eq_refl) as [_ Hno].
  exact (Hno d Hd Hodd Hm).
Qed.

(** ** Reachable states *)

Lemma reachable_run (lo hi : Z) (NBR_PROCESSES : nat) (schedule : list actor)
    (s s' : state) :
  reachable lo hi NBR_PROCESSES s ->
  run NBR_PROCESSES schedule s = Some s' ->
  reachable lo hi NBR_PROCESSES s'.
Proof.
  intros [before Hb] Hrun. exists (before ++ schedule).
  now rewrite run_app, Hb.
Qed.

(** With no process at all the script stops at [Pool(processes=0)]. *)
Lemma reachable_zero (lo hi : Z) (s : state) :
  reachable lo hi 0 s -> s = start lo hi 0.
Proof.
  intros [[|a rest] Hrun]; simpl in Hrun; [congruence|].
  destruct a as [|i]; discriminate Hrun.
Qed.

Lemma reachable_crash_free (lo hi : Z) (NBR_PROCESSES : nat) (s : state) :
  Forall (fun n => crashes (PyInt n) = false) (number_range lo hi) ->
  reachable lo hi NBR_PROCESSES s -> crash_free s.
Proof.
  intros Hok [schedule Hrun]. eapply run_crash_free; [exact Hrun|].
  now apply start_crash_free.
Qed.

Lemma serial_primes_pushes (lo hi : Z) (l : list Z) :
  serial_primes lo hi = Ok l ->
  Forall (fun n => crashes (PyInt n) = false) (number_range lo hi)
  /\ List.filter pushes (List.map PyInt (number_range lo hi)) = List.map PyInt l.
Proof.
  unfold serial_primes. intros H.
  pose proof (serial_loop_returns _ _ _ H) as Hok. split; [exact Hok|].
  rewrite (serial_loop_ok _ [] Hok) in H. injection H as <-.
  apply filter_pushes_map.
Qed.

(** Whatever the interleaving, a finished run has counted every worker
    and collected the numbers a worker pushes. *)
Lemma complete_primes (lo hi : Z) (NBR_PROCESSES : nat) (s : state)
    (f : nat) (primes : list pyobj) :
  reachable lo hi NBR_PROCESSES s ->
  main s = CComplete f primes ->
  (0 < NBR_PROCESSES)%nat
  /\ f = NBR_PROCESSES
  /\ Permutation primes
       (List.filter pushes (List.map PyInt (number_range lo hi))).
Proof.
  intros Hr Hmain. destruct NBR_PROCESSES as [|n].
  - apply reachable_zero in Hr. subst s. discriminate Hmain.
  - assert (Hpos : (0 < S n)%nat) by lia. split; [exact Hpos|].
    pose proof (reachable_invariant lo hi (S n) Hpos s Hr) as Hinv.
    destruct (complete_state lo hi (S n) Hpos s f primes Hinv Hmain)
      as (Hf & _ & _ & _ & Hperm).
    split; assumption.
Qed.

Lemma can_complete (lo hi : Z) (NBR_PROCESSES : nat) (s : state) :
  (0 < NBR_PROCESSES)%nat ->
  Forall (fun n => crashes (PyInt n) = false) (number_range lo hi) ->
  reachable lo hi NBR_PROCESSES s ->
  exists schedule s' primes,
    run NBR_PROCESSES schedule s = Some s'
    /\ main s' = CComplete NBR_PROCESSES primes.
Proof.
  intros Hpos Hok Hr. apply reach_complete with (lo := lo) (hi := hi).
  - exact Hpos.
  - now apply reachable_invariant.
  - eapply reachable_crash_free; eassumption.
Qed.

(** On a range of non-negative numbers that fit a double the serial loop
    returns. *)
Lemma serial_primes_nonnegative (lo hi : Z) :
  0 <= lo -> hi <= 2 ^ 1023 -> exists l, serial_primes lo hi = Ok l.
Proof.
  intros Hlo Hhi. unfold serial_primes.
  rewrite (serial_loop_ok _ [] (nonnegative_range_no_crash lo hi Hlo Hhi)).
  eauto.
Qed.

(** A negative odd candidate makes [math.sqrt] raise in both versions:
    the serial loop ends with [ValueError], and in the pipeline the worker
    dies without its finished flag and the main script waits for ever. *)
Lemma negative_odd_candidate :
  serial_primes (-1) 0 = Raise ValueError
  /\ exists s,
       run 1 (schedule_by 1 [Main; Worker 0] 100 (start (-1) 0 1))
           (start (-1) 0 1) = Some s
       /\ processes s = [WCrashed]
       /\ main s = CDrain 0 []
       /\ stuck 1 s.
Proof.
  split; [reflexivity|]. eexists. split; [vm_compute; reflexivity|].
  split; [reflexivity|]. split; [reflexivity|].
  intros [|[|i]]; reflexivity.
Qed.

(** C1. With 1, 2, 4 or 8 workers and a range on which the serial loop
    returns its list [l]: every run of the pipeline can be continued until
    the main script is past its [assert], and whenever it is, [primes]
    holds exactly the numbers of [l] (each once, in the order of arrival);
    in particular the two have the same elements. *)
Theorem pipeline_equals_serial (lo hi : Z) (NBR_PROCESSES : nat) (l : list Z) :
  In NBR_PROCESSES [1; 2; 4; 8]%nat ->
  serial_primes lo hi = Ok l ->
  (forall s, reachable lo hi NBR_PROCESSES s ->
     exists schedule s' primes,
       run NBR_PROCESSES schedule s = Some s'
       /\ main s' = CComplete NBR_PROCESSES primes)
  /\ (forall s f primes,
        reachable lo hi NBR_PROCESSES s ->
        main s = CComplete f primes ->
        Permutation primes (List.map PyInt l)
        /\ forall n, In (PyInt n) primes <-> In n l).
Proof.
  intros HW Hserial.
  assert (Hpos : (0 < NBR_PROCESSES)%nat) by (simpl in HW; lia).
  destruct (serial_primes_pushes lo hi l Hserial) as [Hok Hl]. split.
  - intros s Hr. now apply can_complete with (lo := lo) (hi := hi).
  - intros s f primes Hr Hmain.
    destruct (complete_primes lo hi NBR_PROCESSES s f primes Hr Hmain)
      as (_ & _ & Hperm).
    rewrite Hl in Hperm. split; [exact Hperm|].
    intros n. split; intros Hin.
    + apply (Permutation_in _ Hperm) in Hin. apply List.in_map_iff in Hin.
      destruct Hin as (m & [= ->] & Hm). exact Hm.
    + apply (Permutation_in _ (Permutation_sym Hperm)).
      now apply List.in_map.
Qed.

Lemma pipeline_equals_serial_witness :
  exists s primes,
    run 2 (schedule_by 2 [Main; Worker 0; Worker 1] 100 (start 10 20 2))
        (start 10 20 2) = Some s
    /\ main s = CComplete 2 primes
    /\ Permutation primes (List.map PyInt [11; 13; 17; 19]).
Proof.
  eexists. eexists. split; [vm_compute; reflexivity|]. split; [reflexivity|].
  assert (HW : In 2%nat [1; 2; 4; 8]%nat) by (simpl; tauto).
  destruct (pipeline_equals_serial 10 20 2 [11; 13; 17; 19] HW eq_refl)
    as [_ Hsafe].
  eapply (fun s f p Hr Hm => proj1 (Hsafe s f p Hr Hm)).
  - exists (schedule_by 2 [Main; Worker 0; Worker 1] 100 (start 10 20 2)).
    vm_compute. reflexivity.
  - reflexivity.
Defined.

(** ** The order of the candidates *)

Lemma range_from_sorted (len : nat) (start : Z) :
  StronglySorted Z.lt (range_from len start 1).
Proof.
  revert start. induction len as [|len IH]; intros start; simpl.
  - constructor.
  - constructor; [apply IH|].
    apply List.Forall_forall. intros i Hi.
    apply range_from_In in Hi. destruct Hi as (k & _ & ->). lia.
Qed.

Lemma number_range_sorted (lo hi : Z) : StronglySorted Z.lt (number_range lo hi).
Proof. apply range_from_sorted. Qed.

Lemma held_repeat_get (k : nat) : held (repeat WGet k) = [].
Proof. induction k; simpl; auto. Qed.

(** The main script never waits while it fills the work queue: running
    alone it puts what it still has to put, candidates first, and comes
    to its drain loop. *)
Lemma main_runs_fill (NBR_PROCESSES : nat) (todo : list Z) (s : state) :
  main s = CFill todo ->
  run NBR_PROCESSES (repeat Main (length todo)) s
  = Some {| possible := possible s ++ List.map PyInt todo;
            definite := definite s;
            processes := processes s;
            main := CFill [];
            trace := trace s
                     ++ List.map (fun n => PutEv possible_primes_queue (PyInt n))
                          todo |}.
Proof.
  revert s. induction todo as [|n todo IH]; intros s Hmain.
  - destruct s as [P D ws c t]. cbn in *. subst c.
    now rewrite !app_nil_r.
  - cbn [length repeat run step]. unfold main_step. rewrite Hmain.
    rewrite (IH (put_possible (PyInt n) (CFill todo) s)) by reflexivity.
    cbn [possible definite processes trace put_possible List.map].
    now rewrite <- !app_assoc.
Qed.

Lemma main_runs_stops (NBR_PROCESSES remaining : nat) (s : state) :
  main s = CStops remaining ->
  run NBR_PROCESSES (repeat Main remaining) s
  = Some {| possible := possible s ++ repeat FLAG_ALL_DONE remaining;
            definite := definite s;
            processes := processes s;
            main := CStops 0;
            trace := trace s
                     ++ repeat (PutEv possible_primes_queue FLAG_ALL_DONE)
                          remaining |}.
Proof.
  revert s. induction remaining as [|k IH]; intros s Hmain.
  - destruct s as [P D ws c t]. cbn in *. subst c.
    now rewrite !app_nil_r.
  - cbn [repeat run step]. unfold main_step. rewrite Hmain.
    rewrite (IH (put_possible FLAG_ALL_DONE (CStops k) s)) by reflexivity.
    cbn [possible definite processes trace put_possible].
    now rewrite <- !app_assoc.
Qed.

Lemma main_runs_to_drain (NBR_PROCESSES : nat) (s : state) :
  control_ok NBR_PROCESSES (main s) ->
  exists k s',
    (k <= length (todo_of (main s)) + stops_left NBR_PROCESSES (main s) + 2)%nat
    /\ run NBR_PROCESSES (repeat Main k) s = Some s'
    /\ possible s'
       = possible s ++ List.map PyInt (todo_of (main s))
         ++ repeat FLAG_ALL_DONE (stops_left NBR_PROCESSES (main s))
    /\ definite s' = definite s
    /\ processes s' = processes s
    /\ (exists f primes,
          main s' = CDrain f primes \/ main s' = CAssert f primes
          \/ main s' = CComplete f primes)
    /\ (forall todo, main s = CFill todo ->
          k = (length todo + NBR_PROCESSES + 2)%nat /\ main s' = CDrain 0 []).
Proof.
  intros Hctl.
  assert (Hstops : forall r s1, main s1 = CStops r ->
            run NBR_PROCESSES (repeat Main (r + 1)) s1
            = Some {| possible := possible s1 ++ repeat FLAG_ALL_DONE r;
                      definite := definite s1;
                      processes := processes s1;
                      main := CDrain 0 [];
                      trace := trace s1
                               ++ repeat (PutEv possible_primes_queue
                                            FLAG_ALL_DONE) r |}).
  { intros r s1 Hm. rewrite repeat_app, run_app.
    rewrite (main_runs_stops NBR_PROCESSES r s1 Hm). reflexivity. }
  destruct (main s) as [todo|r|f primes|f primes|f primes|e] eqn:Hmain;
    cbn [todo_of stops_left length].
  - exists (length todo + 1 + (NBR_PROCESSES + 1))%nat. eexists.
    split; [lia|]. split.
    { rewrite (repeat_app _ (length todo + 1)), (repeat_app _ (length todo)).
      rewrite <- app_assoc, run_app.
      rewrite (main_runs_fill NBR_PROCESSES todo s Hmain).
      cbn [repeat app run step]. unfold main_step at 1. cbn [main].
      apply Hstops. reflexivity. }
    cbn [possible definite processes main goto].
    rewrite <- app_assoc.
    repeat (split; [reflexivity|]). split; [eauto|].
    intros todo' [= <-]. split; [lia | reflexivity].
  - exists (r + 1)%nat. eexists. split; [lia|].
    split; [apply Hstops; exact Hmain|].
    cbn [possible definite processes main List.map app].
    repeat (split; [reflexivity|]). split; [eauto | discriminate].
  - exists 0%nat, s. split; [lia|]. split; [reflexivity|].
    rewrite Hmain. cbn [List.map repeat].
    rewrite app_nil_r. repeat (split; [reflexivity|]).
    split; [eauto | discriminate].
  - exists 0%nat, s. split; [lia|]. split; [reflexivity|].
    rewrite Hmain. cbn [List.map repeat].
    rewrite app_nil_r. repeat (split; [reflexivity|]).
    split; [eauto | discriminate].
  - exists 0%nat, s. split; [lia|]. split; [reflexivity|].
    rewrite Hmain. cbn [List.map repeat].
    rewrite app_nil_r. repeat (split; [reflexivity|]).
    split; [eauto 6 | discriminate].
  - destruct Hctl.
Qed.

(** C3. The main script enqueues every candidate of the range in
    ascending order and then [NBR_PROCESSES] stop flags, one per started
    process.  It is never made to wait while it does so: run alone from
    the start, after one step per candidate, one per flag and two between
    the loops it is in its drain loop and the work queue holds exactly the
    candidates in ascending order followed by the flags; and from any
    state of any run, whatever the workers have done, it comes to the drain
    loop by steps of its own, with exactly that put on the queue.  All
    along, what it has put taken together with what it still has to put
    is that same sequence, and the work queue itself is a run of
    candidates followed by a run of stop flags: no flag stands before a
    candidate. *)
Theorem enqueue_order (lo hi : Z) (NBR_PROCESSES : nat) (s : state) :
  (0 < NBR_PROCESSES)%nat ->
  reachable lo hi NBR_PROCESSES s ->
  StronglySorted Z.lt (number_range lo hi)
  /\ (forall n, In n (number_range lo hi) <-> lo <= n < hi)
  /\ work_puts (trace s) ++ List.map PyInt (todo_of (main s))
     ++ repeat FLAG_ALL_DONE (stops_left NBR_PROCESSES (main s))
     = List.map PyInt (number_range lo hi) ++ repeat FLAG_ALL_DONE NBR_PROCESSES
  /\ (forall f primes,
        main s = CDrain f primes \/ main s = CAssert f primes
        \/ main s = CComplete f primes ->
        work_puts (trace s)
        = List.map PyInt (number_range lo hi) ++ repeat FLAG_ALL_DONE NBR_PROCESSES)
  /\ length (processes s) = NBR_PROCESSES
  /\ (exists cs k, possible s = List.map PyInt cs ++ repeat FLAG_ALL_DONE k)
  /\ (exists s0,
        run NBR_PROCESSES
            (repeat Main (length (number_range lo hi) + NBR_PROCESSES + 2))
            (start lo hi NBR_PROCESSES) = Some s0
        /\ main s0 = CDrain 0 []
        /\ possible s0
           = List.map PyInt (number_range lo hi)
             ++ repeat FLAG_ALL_DONE NBR_PROCESSES
        /\ work_puts (trace s0) = possible s0)
  /\ (exists k s',
        (k <= length (number_range lo hi) + NBR_PROCESSES + 2)%nat
        /\ run NBR_PROCESSES (repeat Main k) s = Some s'
        /\ (exists f primes,
              main s' = CDrain f primes \/ main s' = CAssert f primes
              \/ main s' = CComplete f primes)
        /\ work_puts (trace s')
           = List.map PyInt (number_range lo hi)
             ++ repeat FLAG_ALL_DONE NBR_PROCESSES
        /\ possible s'
           = possible s ++ List.map PyInt (todo_of (main s))
             ++ repeat FLAG_ALL_DONE (stops_left NBR_PROCESSES (main s))).
Proof.
  intros Hpos Hr.
  pose proof (reachable_invariant lo hi NBR_PROCESSES Hpos s Hr) as Hinv.
  destruct Hinv as [Hlen Hctl _ _ Hshape _ _ Htrace _].
  assert (Hdrained : forall s1,
            reachable lo hi NBR_PROCESSES s1 ->
            (exists f primes,
               main s1 = CDrain f primes \/ main s1 = CAssert f primes
               \/ main s1 = CComplete f primes) ->
            work_puts (trace s1)
            = List.map PyInt (number_range lo hi)
              ++ repeat FLAG_ALL_DONE NBR_PROCESSES).
  { intros s1 Hr1 (f & primes & Hmain).
    pose proof (inv_trace _ _ _ _
                  (reachable_invariant lo hi NBR_PROCESSES Hpos s1 Hr1)) as H1.
    destruct Hmain as [Hm | [Hm | Hm]]; rewrite Hm in H1;
      cbn [todo_of stops_left List.map repeat] in H1;
      now rewrite !app_nil_r in H1. }
  split; [apply number_range_sorted|].
  split; [apply number_range_In|].
  split; [exact Htrace|]. split; [|split; [exact Hlen|split; [|split]]].
  - intros f primes Hmain. apply Hdrained; eauto.
  - destruct Hshape as (cs & k & HP & _). eauto.
  - assert (Hr0 : reachable lo hi NBR_PROCESSES (start lo hi NBR_PROCESSES))
      by (exists []; reflexivity).
    pose proof (reachable_invariant lo hi NBR_PROCESSES Hpos _ Hr0) as Hinv0.
    destruct (main_runs_to_drain NBR_PROCESSES (start lo hi NBR_PROCESSES)
                (inv_ctl _ _ _ _ Hinv0))
      as (k & s0 & _ & Hrun & HP & _ & _ & Hpast & Hfill).
    rewrite (start_positive lo hi NBR_PROCESSES Hpos) in Hrun, HP, Hfill.
    cbn [main possible todo_of stops_left app] in HP, Hfill.
    destruct (Hfill _ eq_refl) as [-> Hmain0].
    exists s0. rewrite <- (start_positive lo hi NBR_PROCESSES Hpos) in Hrun.
    split; [exact Hrun|]. split; [exact Hmain0|]. split; [exact HP|].
    rewrite HP. apply Hdrained; [|exact Hpast].
    eapply reachable_run; eassumption.
  - destruct (main_runs_to_drain NBR_PROCESSES s Hctl)
      as (k & s' & Hk & Hrun & HP & _ & _ & Hpast & _).
    exists k, s'. split.
    { apply (f_equal (@length pyobj)) in Htrace.
      rewrite !length_app, !length_map, !repeat_length in Htrace. lia. }
    split; [exact Hrun|]. split; [exact Hpast|].
    split; [|exact HP]. apply Hdrained; [|exact Hpast].
    eapply reachable_run; eassumption.
Qed.

Lemma enqueue_order_witness :
  (exists s0,
     run 2 (repeat Main 104) (start 0 100 2) = Some s0
     /\ main s0 = CDrain 0 []
     /\ possible s0
        = List.map PyInt (number_range 0 100) ++ [FLAG_ALL_DONE; FLAG_ALL_DONE]
     /\ work_puts (trace s0) = possible s0)
  /\ exists s,
       run 2 (schedule_by 2 [Main; Worker 0; Worker 1] 7 (start 10 13 2))
           (start 10 13 2) = Some s
       /\ main s = CDrain 0 []
       /\ work_puts (trace s)
          = [PyInt 10; PyInt 11; PyInt 12; FLAG_ALL_DONE; FLAG_ALL_DONE].
Proof.
  assert (Hpos : (0 < 2)%nat) by lia.
  split.
  - assert (Hstart : reachable 0 100 2 (start 0 100 2))
      by (exists []; reflexivity).
    destruct (enqueue_order 0 100 2 (start 0 100 2) Hpos Hstart)
      as (_ & _ & _ & _ & _ & _ & Hfill & _).
    exact Hfill.
  - eexists. split; [vm_compute; reflexivity|]. split; [reflexivity|].
    refine (proj1 (proj2 (proj2 (proj2
              (enqueue_order 10 13 2 _ Hpos _)))) 0%nat [] _).
    + exists (schedule_by 2 [Main; Worker 0; Worker 1] 7 (start 10 13 2)).
      vm_compute. reflexivity.
    + left. reflexivity.
Defined.

(** C4. With at least one worker, for every range: a run takes at most
    [4 * (number of candidates) + 4 * NBR_PROCESSES + 3] steps, so the
    drain loop cannot go on for ever; the [assert] after the loop never
    fails, and whenever the main script has left the loop the counter is
    exactly [NBR_PROCESSES]; and a run that has come to a halt with no
    worker lost to an exception (so that every worker has put its
    finished flag) has halted with the main script past the [assert], all
    workers out of their loops and the result queue empty. *)
Theorem drain_terminates (lo hi : Z) (NBR_PROCESSES : nat)
    (schedule : list actor) (s : state) :
  (0 < NBR_PROCESSES)%nat ->
  run NBR_PROCESSES schedule (start lo hi NBR_PROCESSES) = Some s ->
  (length schedule
   <= 4 * length (number_range lo hi) + 4 * NBR_PROCESSES + 3)%nat
  /\ main s <> CRaised AssertionError
  /\ (forall f primes,
        main s = CAssert f primes \/ main s = CComplete f primes ->
        f = NBR_PROCESSES)
  /\ (stuck NBR_PROCESSES s ->
      countb is_crashed (processes s) = 0%nat ->
      exists primes,
        main s = CComplete NBR_PROCESSES primes
        /\ Forall (fun w => w = WDone) (processes s)
        /\ definite s = []).
Proof.
  intros Hpos Hrun.
  assert (Hr : reachable lo hi NBR_PROCESSES s) by (exists schedule; exact Hrun).
  pose proof (reachable_invariant lo hi NBR_PROCESSES Hpos s Hr) as Hinv.
  split.
  { pose proof (run_fuel _ _ _ _ Hrun) as Hfuel.
    rewrite (start_positive lo hi NBR_PROCESSES Hpos) in Hfuel.
    unfold fuel_of in Hfuel at 2. cbn [main possible definite processes] in Hfuel.
    rewrite held_repeat_get in Hfuel. cbn [fuel_of_main length] in Hfuel. lia. }
  split; [now apply (never_assertion_error lo hi NBR_PROCESSES)|].
  split.
  { intros f primes Hmain. pose proof (inv_ctl _ _ _ _ Hinv) as Hctl.
    destruct Hmain as [Hm | Hm]; rewrite Hm in Hctl; exact Hctl. }
  intros Hstuck Halive.
  destruct (progress lo hi NBR_PROCESSES Hpos s Hinv Halive)
    as [[primes Hp] | (a & s1 & Hs)].
  - exists primes. split; [exact Hp|].
    destruct (complete_state lo hi NBR_PROCESSES Hpos s _ _ Hinv Hp)
      as (_ & Hdone & _ & HD & _).
    split; assumption.
  - rewrite (Hstuck a) in Hs. discriminate.
Qed.

Lemma drain_terminates_witness :
  exists s,
    run 2 (schedule_by 2 [Worker 1; Worker 0; Main] 100 (start 10 13 2))
        (start 10 13 2) = Some s
    /\ main s = CComplete 2 [PyInt 11]
    /\ processes s = [WDone; WDone].
Proof.
  eexists. split; [vm_compute; reflexivity|].
  destruct (drain_terminates 10 13 2
              (schedule_by 2 [Worker 1; Worker 0; Main] 100 (start 10 13 2))
              _ ltac:(lia) ltac:(vm_compute; reflexivity))
    as (_ & _ & _ & Hhalt).
  destruct Hhalt as (primes & Hmain & _ & _).
  - intros [|[|[|i]]]; reflexivity.
  - reflexivity.
  - split; reflexivity.
Defined.



(** ** Ranges and worker counts the spec singles out *)

Lemma run_trace_extends (NBR_PROCESSES : nat) (schedule : list actor)
    (s s' : state) :
  run NBR_PROCESSES schedule s = Some s' ->
  exists t, trace s' = trace s ++ t.
Proof.
  revert s. induction schedule as [|a rest IH]; intros s; simpl.
  - intros [= ->]. exists []. now rewrite app_nil_r.
  - destruct (step NBR_PROCESSES a s) as [s1|] eqn:Hs; [|discriminate].
    intros Hrun. destruct (IH s1 Hrun) as [t2 Ht2].
    apply step_transition in Hs.
    assert (Ht1 : exists t1, trace s1 = trace s ++ t1).
    { destruct Hs; cbn [trace]; eauto; exists []; now rewrite app_nil_r. }
    destruct Ht1 as [t1 Ht1]. exists (t1 ++ t2).
    now rewrite Ht2, Ht1, app_assoc.
Qed.

Lemma complete_in_empty_range (lo hi : Z) (NBR_PROCESSES : nat) (s : state)
    (f : nat) (primes : list pyobj) :
  serial_primes lo hi = Ok [] ->
  reachable lo hi NBR_PROCESSES s ->
  main s = CComplete f primes ->
  f = NBR_PROCESSES /\ primes = [].
Proof.
  intros Hserial Hr Hmain.
  destruct (complete_primes _ _ _ _ _ _ Hr Hmain) as (_ & Hf & Hperm).
  destruct (serial_primes_pushes lo hi [] Hserial) as [_ Hl].
  rewrite Hl in Hperm. split; [exact Hf|].
  now apply Permutation_nil, Permutation_sym.
Qed.

(** C5. The number 2 is prime, but both versions of [check_prime] send
    every even number away before any division: the serial loop on
    [range(2, 3)] returns no prime, and no finished run of the pipeline on
    a range that starts at 2 has 2 among its primes.  The other two
    boundary cases hold: on [range(24, 28)] a finished run has no primes,
    and with one worker a finished run has the primes of the serial loop
    and has counted one finished flag. *)
Theorem two_is_not_reported :
  Z.prime 2
  /\ check_prime 2 = Ok false
  /\ worker_body (PyInt 2) = Continue
  /\ serial_primes 2 3 = Ok []
  /\ (forall hi NBR_PROCESSES s f primes,
        reachable 2 hi NBR_PROCESSES s ->
        main s = CComplete f primes ->
        ~ In (PyInt 2) primes)
  /\ (forall NBR_PROCESSES s f primes,
        reachable 24 28 NBR_PROCESSES s ->
        main s = CComplete f primes ->
        primes = [])
  /\ (forall lo hi l s f primes,
        serial_primes lo hi = Ok l ->
        reachable lo hi 1 s ->
        main s = CComplete f primes ->
        f = 1%nat /\ Permutation primes (List.map PyInt l)).
Proof.
  split; [exact Z.prime_2|]. split; [reflexivity|]. split; [reflexivity|].
  split; [reflexivity|]. split; [|split].
  - intros hi NBR_PROCESSES s f primes Hr Hmain Hin.
    destruct (complete_primes _ _ _ _ _ _ Hr Hmain) as (_ & _ & Hperm).
    apply (Permutation_in _ Hperm) in Hin.
    apply List.filter_In in Hin. destruct Hin as [_ Hpush]. discriminate Hpush.
  - intros NBR_PROCESSES s f primes Hr Hmain.
    now apply (complete_in_empty_range 24 28 NBR_PROCESSES s f primes).
  - intros lo hi l s f primes Hserial Hr Hmain.
    destruct (complete_primes _ _ _ _ _ _ Hr Hmain) as (_ & Hf & Hperm).
    destruct (serial_primes_pushes lo hi l Hserial) as [_ Hl].
    rewrite Hl in Hperm. split; assumption.
Qed.

Lemma two_is_not_reported_witness :
  exists s,
    run 1 (schedule_by 1 [Main; Worker 0] 100 (start 2 6 1)) (start 2 6 1)
    = Some s
    /\ main s = CComplete 1 [PyInt 3; PyInt 5]
    /\ ~ In (PyInt 2) [PyInt 3; PyInt 5].
Proof.
  eexists. split; [vm_compute; reflexivity|]. split; [reflexivity|].
  destruct two_is_not_reported as (_ & _ & _ & _ & Hno2 & _).
  eapply (fun s Hr Hm => Hno2 6 1%nat s 1%nat _ Hr Hm).
  - exists (schedule_by 1 [Main; Worker 0] 100 (start 2 6 1)).
    vm_compute. reflexivity.
  - reflexivity.
Defined.

(** C6, as the spec has it, fails: a finished run on
    [range(100000000, 100000050)] with four workers has the prime
    100000049 among its primes, which is none of the three numbers the
    spec lists. *)
Lemma scenario_has_a_fourth_prime :
  exists s primes,
    reachable 100000000 100000050 4 s
    /\ main s = CComplete 4 primes
    /\ In (PyInt 100000049) primes
    /\ ~ In (PyInt 100000049)
         (List.map PyInt [100000007; 100000037; 100000039])
    /\ Z.prime 100000049.
Proof.
  assert (Hserial : serial_primes 100000000 100000050
                    = Ok [100000007; 100000037; 100000039; 100000049])
    by (vm_compute; reflexivity).
  destruct (serial_primes_pushes _ _ _ Hserial) as [Hok Hl].
  destruct (can_complete 100000000 100000050 4 (start 100000000 100000050 4))
    as (schedule & s & primes & Hrun & Hmain);
    [lia | exact Hok | exists []; reflexivity |].
  assert (Hr : reachable 100000000 100000050 4 s) by (exists schedule; exact Hrun).
  exists s, primes. split; [exact Hr|]. split; [exact Hmain|].
  destruct (complete_primes _ _ _ _ _ _ Hr Hmain) as (_ & _ & Hperm).
  rewrite Hl in Hperm. split; [|split].
  - apply (Permutation_in _ (Permutation_sym Hperm)). simpl. tauto.
  - simpl. intros [H | [H | [H | []]]]; discriminate H.
  - apply check_prime_odd_prime; [lia | reflexivity |].
    vm_compute. reflexivity.
Qed.

(** C6, amended. On [range(100000000, 100000050)] with four workers every
    run can be continued to its end, and a finished run has counted four
    finished flags and holds the four primes 100000007, 100000037,
    100000039 and 100000049; on [range(10, 20)] with two workers every run
    can be continued to its end, and a finished run holds 11, 13, 17 and
    19. *)
Theorem concrete_scenarios (s : state) (f : nat) (primes : list pyobj) :
  (reachable 100000000 100000050 4 s ->
     (exists schedule s' primes',
        run 4 schedule s = Some s' /\ main s' = CComplete 4 primes')
     /\ (main s = CComplete f primes ->
         f = 4%nat
         /\ Permutation primes
              (List.map PyInt [100000007; 100000037; 100000039; 100000049])))
  /\ (reachable 10 20 2 s ->
        (exists schedule s' primes',
           run 2 schedule s = Some s' /\ main s' = CComplete 2 primes')
        /\ (main s = CComplete f primes ->
            f = 2%nat
            /\ Permutation primes (List.map PyInt [11; 13; 17; 19]))).
Proof.
  assert (Hbig : serial_primes 100000000 100000050
                 = Ok [100000007; 100000037; 100000039; 100000049])
    by (vm_compute; reflexivity).
  assert (Hsmall : serial_primes 10 20 = Ok [11; 13; 17; 19])
    by (vm_compute; reflexivity).
  destruct (serial_primes_pushes _ _ _ Hbig) as [Hok1 Hl1].
  destruct (serial_primes_pushes _ _ _ Hsmall) as [Hok2 Hl2].
  split; intros Hr; split.
  - apply (can_complete 100000000 100000050 4 s); [lia | exact Hok1 | exact Hr].
  - intros Hmain.
    destruct (complete_primes _ _ _ _ _ _ Hr Hmain) as (_ & Hf & Hperm).
    rewrite Hl1 in Hperm. split; assumption.
  - apply (can_complete 10 20 2 s); [lia | exact Hok2 | exact Hr].
  - intros Hmain.
    destruct (complete_primes _ _ _ _ _ _ Hr Hmain) as (_ & Hf & Hperm).
    rewrite Hl2 in Hperm. split; assumption.
Qed.

Lemma concrete_scenarios_witness :
  exists s primes,
    run 4 (schedule_by 4 [Worker 3; Worker 2; Worker 1; Worker 0; Main] 400
             (start 100000000 100000050 4))
        (start 100000000 100000050 4) = Some s
    /\ main s = CComplete 4 primes
    /\ Permutation primes
         (List.map PyInt [100000007; 100000037; 100000039; 100000049]).
Proof.
  eexists. eexists. split; [vm_compute; reflexivity|]. split; [reflexivity|].
  eapply (fun s p Hr Hm =>
            proj2 (proj2 (proj1 (concrete_scenarios s 4 p) Hr) Hm)).
  - exists (schedule_by 4 [Worker 3; Worker 2; Worker 1; Worker 0; Main] 400
              (start 100000000 100000050 4)).
    vm_compute. reflexivity.
  - reflexivity.
Defined.

(** C7, as the spec has it, fails: nothing in the script looks at the
    range.  On the empty range [range(5, 5)] with one worker both queues
    are created, a stop flag and a finished flag travel through them, and
    the run ends with a result, the empty list. *)
Lemma empty_range_is_processed :
  5 <= 5
  /\ exists s,
       reachable 5 5 1 s
       /\ trace s = [Created possible_primes_queue;
                     Created definite_primes_queue;
                     PutEv possible_primes_queue FLAG_ALL_DONE;
                     GetEv possible_primes_queue FLAG_ALL_DONE;
                     PutEv definite_primes_queue FLAG_WORKER_FINISHED_PROCESSING;
                     GetEv definite_primes_queue FLAG_WORKER_FINISHED_PROCESSING]
       /\ main s = CComplete 1 [].
Proof.
  split; [lia|]. eexists. split; [|split].
  - exists (schedule_by 1 [Main; Worker 0] 100 (start 5 5 1)).
    vm_compute. reflexivity.
  - reflexivity.
  - reflexivity.
Qed.

(** C7, amended. The two queues are created before anything else, for
    every input.  With no worker, [Pool(processes=0)] then raises
    [ValueError]: no process is started, nothing is put on or got from a
    queue, and there is no result.  With at least one worker an empty or
    reversed range is not rejected: no candidate is put on the work queue,
    only stop flags; every run can be continued to its end; and a finished
    run has counted [NBR_PROCESSES] finished flags and has no primes. *)
Theorem malformed_input_is_not_rejected (lo hi : Z) (NBR_PROCESSES : nat)
    (s : state) :
  hi <= lo \/ NBR_PROCESSES = 0%nat ->
  reachable lo hi NBR_PROCESSES s ->
  (exists t, trace s = Created possible_primes_queue
                       :: Created definite_primes_queue :: t)
  /\ (NBR_PROCESSES = 0%nat ->
      main s = CRaised ValueError /\ processes s = []
      /\ queue_ops (trace s) = [])
  /\ ((0 < NBR_PROCESSES)%nat ->
      (forall x, In x (work_puts (trace s)) -> x = FLAG_ALL_DONE)
      /\ (exists schedule s',
            run NBR_PROCESSES schedule s = Some s'
            /\ main s' = CComplete NBR_PROCESSES [])
      /\ (forall f primes,
            main s = CComplete f primes -> f = NBR_PROCESSES /\ primes = [])).
Proof.
  intros Hbad Hr. split; [|split].
  - destruct Hr as [schedule Hrun].
    destruct (run_trace_extends _ _ _ _ Hrun) as [t Ht].
    exists t. rewrite Ht. destruct NBR_PROCESSES; reflexivity.
  - intros ->. apply reachable_zero in Hr. subst s. repeat split.
  - intros Hpos. assert (Hempty : hi <= lo) by lia.
    pose proof (number_range_empty lo hi Hempty) as Hnil.
    assert (Hserial : serial_primes lo hi = Ok [])
      by (unfold serial_primes; now rewrite Hnil).
    pose proof (reachable_invariant lo hi NBR_PROCESSES Hpos s Hr) as Hinv.
    split; [|split].
    + intros x Hin. pose proof (inv_trace _ _ _ _ Hinv) as Htrace.
      rewrite Hnil in Htrace. cbn [List.map app] in Htrace.
      apply (repeat_spec NBR_PROCESSES FLAG_ALL_DONE x).
      rewrite <- Htrace. apply List.in_or_app. now left.
    + destruct (can_complete lo hi NBR_PROCESSES s Hpos)
        as (schedule & s' & primes & Hrun & Hmain);
        [rewrite Hnil; constructor | exact Hr |].
      exists schedule, s'. split; [exact Hrun|].
      destruct (complete_in_empty_range lo hi NBR_PROCESSES s' NBR_PROCESSES
                  primes Hserial)
        as [_ ->]; [eapply reachable_run; eassumption | exact Hmain |].
      exact Hmain.
    + intros f primes Hmain.
      now apply (complete_in_empty_range lo hi NBR_PROCESSES s f primes).
Qed.

Lemma malformed_input_is_not_rejected_witness :
  (exists s,
     run 2 (schedule_by 2 [Worker 1; Main; Worker 0] 100 (start 9 4 2))
         (start 9 4 2) = Some s
     /\ main s = CComplete 2 []
     /\ forall x, In x (work_puts (trace s)) -> x = FLAG_ALL_DONE)
  /\ main (start 3 8 0) = CRaised ValueError.
Proof.
  split.
  - eexists. split; [vm_compute; reflexivity|]. split; [reflexivity|].
    assert (Hbad : 4 <= 9 \/ 2%nat = 0%nat) by (left; lia).
    assert (Hpos : (0 < 2)%nat) by lia.
    eapply (fun s Hr =>
              proj1 (proj2 (proj2 (malformed_input_is_not_rejected
                                     9 4 2 s Hbad Hr)) Hpos)).
    exists (schedule_by 2 [Worker 1; Main; Worker 0] 100 (start 9 4 2)).
    vm_compute. reflexivity.
  - assert (Hr : reachable 3 8 0 (start 3 8 0)) by (exists []; reflexivity).
    destruct (malformed_input_is_not_rejected 3 8 0 _ (or_intror eq_refl) Hr)
      as (_ & Hzero & _).
    exact (proj1 (Hzero eq_refl)).
Defined.

(** * Further properties of the notebook code *)

(** ** When [check_prime] raises, and what it accepts *)

Lemma check_prime_raises (n : Z) (e : exn) :
  check_prime n = Raise e ->
  Z.odd n = true
  /\ ((e = ValueError /\ n < 0)
      \/ (e = OverflowError /\ 2 ^ 1023 <= Z.abs n)).
Proof.
  rewrite odd_mod_2. unfold check_prime.
  destruct (Z.eqb_spec (n mod 2) 0) as [E|E]; [discriminate|].
  destruct (int_math_sqrt n) as [r|e'] eqn:Hr.
  - destruct (divisor_found _ _); discriminate.
  - intros [= <-]. split; [exact E|]. now apply int_math_sqrt_raise.
Qed.

Lemma check_prime_raises_iff (n : Z) (e : exn) :
  - 2 ^ 1023 < n < 2 ^ 1023 ->
  check_prime n = Raise e <-> e = ValueError /\ n < 0 /\ Z.odd n = true.
Proof.
  intros Hn. split.
  - intros H. apply check_prime_raises in H.
    destruct H as [Hodd [[-> Hneg] | [_ Hbig]]]; [tauto | lia].
  - intros (-> & Hneg & Hodd). apply check_prime_negative_odd; [lia|].
    now apply odd_mod_2.
Qed.

Lemma even_not_prime (n : Z) : 3 <= n -> n mod 2 = 0 -> ~ Z.prime n.
Proof.
  intros Hn Hmod [_ H]. apply (H 2); [lia|].
  apply Z.mod_divide; [lia | exact Hmod].
Qed.

Lemma check_prime_accepts (n : Z) :
  0 <= n < (2 ^ 53 + 5) * (2 ^ 53 + 5) ->
  check_prime n = Ok true <-> n = 1 \/ (n <> 2 /\ Z.prime n).
Proof.
  intros Hn.
  destruct (Z.eq_dec n 0) as [->|H0];
    [split; [discriminate | intros [H | [_ [H _]]]; lia]|].
  destruct (Z.eq_dec n 1) as [->|H1]; [split; [now left | reflexivity]|].
  destruct (Z.eq_dec n 2) as [->|H2];
    [split; [discriminate | intros [H | [H _]]; [lia | congruence]]|].
  destruct (Z.eq_dec (n mod 2) 0) as [E|E].
  - rewrite check_prime_even by exact E. split; [discriminate|].
    intros [H | [_ H]]; [lia|].
    exfalso. exact (even_not_prime n ltac:(lia) E H).
  - rewrite check_prime_odd_prime by (lia || now apply odd_mod_2).
    split; [intros H; right; split; assumption | intros [H | [_ H]]; [lia | exact H]].
Qed.

Lemma serial_loop_raise_inv (todo primes : list Z) (e : exn) :
  serial_loop todo primes = Raise e ->
  exists n, In n todo /\ check_prime n = Raise e.
Proof.
  revert primes. induction todo as [|m todo IH]; intros primes; simpl.
  - discriminate.
  - destruct (check_prime m) as [[|]|e'] eqn:Hm.
    + intros H. destruct (IH _ H) as (n & Hn & Hr). eauto.
    + intros H. destruct (IH _ H) as (n & Hn & Hr). eauto.
    + intros [= <-]. eauto.
Qed.

Lemma serial_loop_raise (todo primes : list Z) (n : Z) :
  Forall (fun m => - 2 ^ 1023 < m < 2 ^ 1023) todo ->
  In n todo -> check_prime n = Raise ValueError ->
  serial_loop todo primes = Raise ValueError.
Proof.
  intros Hfit. revert primes.
  induction Hfit as [|m todo Hm _ IH]; intros primes; simpl.
  - intros [].
  - intros Hin Hn. destruct (check_prime m) as [[|]|e] eqn:Hc.
    + destruct Hin as [-> | Hin]; [congruence | now apply IH].
    + destruct Hin as [-> | Hin]; [congruence | now apply IH].
    + apply check_prime_raises_iff in Hc; [|exact Hm].
      destruct Hc as [-> _]. reflexivity.
Qed.

Lemma filter_sorted (f : Z -> bool) (l : list Z) :
  StronglySorted Z.lt l -> StronglySorted Z.lt (List.filter f l).
Proof.
  induction 1 as [|a l Hs IH Ha]; simpl; [constructor|].
  destruct (f a); [|exact IH].
  constructor; [exact IH|].
  apply List.Forall_forall. intros x Hx. apply List.filter_In in Hx.
  destruct Hx as [Hx _]. revert x Hx. now apply List.Forall_forall.
Qed.

(** X1. [check_prime] raises on odd numbers only (the even ones are sent
    away before [math.sqrt] is called): [ValueError] on a negative one,
    [OverflowError] on one too large for a double.  Every negative odd
    number above [-2^1023] gives [ValueError]; every odd number of
    absolute value [2^1024] or more gives [OverflowError], the negative
    ones too, the conversion coming first.  The serial loop over a range
    within [-2^1023 .. 2^1023] raises [ValueError] exactly when the range
    holds a negative odd number, and returns a list otherwise. *)
Theorem serial_raises_on_negative_odd (lo hi : Z) :
  (forall n e,
     check_prime n = Raise e ->
     Z.odd n = true
     /\ ((e = ValueError /\ n < 0)
         \/ (e = OverflowError /\ 2 ^ 1023 <= Z.abs n)))
  /\ (forall n, - 2 ^ 1023 < n < 0 -> Z.odd n = true ->
        check_prime n = Raise ValueError)
  /\ (forall n, 2 ^ 1024 <= Z.abs n -> Z.odd n = true ->
        check_prime n = Raise OverflowError)
  /\ (- 2 ^ 1023 < lo -> hi <= 2 ^ 1023 ->
      (serial_primes lo hi = Raise ValueError
       <-> exists n, lo <= n < hi /\ n < 0 /\ Z.odd n = true)
      /\ ((exists l, serial_primes lo hi = Ok l)
          <-> forall n, lo <= n < hi -> 0 <= n \/ Z.even n = true)).
Proof.
  split; [exact check_prime_raises|].
  split; [intros n Hn Hodd; apply check_prime_negative_odd;
          [exact Hn | now apply odd_mod_2]|].
  split; [intros n Hn Hodd; apply check_prime_overflow;
          [exact Hn | now apply odd_mod_2]|].
  intros Hlo Hhi.
  assert (Hfit : forall n, In n (number_range lo hi) ->
                   - 2 ^ 1023 < n < 2 ^ 1023).
  { intros n Hn. apply number_range_In in Hn. lia. }
  assert (Hraise : serial_primes lo hi = Raise ValueError
                   <-> exists n, lo <= n < hi /\ n < 0 /\ Z.odd n = true).
  { unfold serial_primes. split.
    - intros H. destruct (serial_loop_raise_inv _ _ _ H) as (n & Hn & Hr).
      apply check_prime_raises_iff in Hr; [|now apply Hfit].
      apply number_range_In in Hn. exists n. tauto.
    - intros (n & Hn & Hneg & Hodd).
      apply (serial_loop_raise _ _ n).
      + apply List.Forall_forall. exact Hfit.
      + now apply number_range_In.
      + apply check_prime_raises_iff; [lia | tauto]. }
  split; [exact Hraise|]. split.
  - intros [l Hl] n Hn.
    destruct (Z_lt_ge_dec n 0) as [Hneg|Hpos]; [|left; lia].
    destruct (Z.even n) eqn:He; [now right|]. exfalso.
    assert (Hr : serial_primes lo hi = Raise ValueError).
    { apply Hraise. exists n. rewrite <- Z.negb_even, He. auto. }
    congruence.
  - intros H. destruct (serial_primes lo hi) as [l|e] eqn:Hs; [eauto|].
    exfalso. unfold serial_primes in Hs.
    destruct (serial_loop_raise_inv _ _ _ Hs) as (n & Hn & Hr).
    apply check_prime_raises_iff in Hr; [|now apply Hfit].
    apply number_range_In in Hn.
    destruct Hr as (_ & Hneg & Hodd).
    destruct (H n Hn) as [Hpos | Heven]; [lia|].
    rewrite <- Z.negb_odd, Hodd in Heven. discriminate.
Qed.

Lemma serial_raises_on_negative_odd_witness :
  serial_primes (-6) 4 = Raise ValueError
  /\ (exists l, serial_primes (-2) (-1) = Ok l)
  /\ check_prime (- (2 ^ 1024) - 1) = Raise OverflowError.
Proof.
  assert (Hlow : - 2 ^ 1023 < -6) by (vm_compute; reflexivity).
  assert (Hhigh : 4 <= 2 ^ 1023) by (vm_compute; discriminate).
  split; [|split].
  - destruct (serial_raises_on_negative_odd (-6) 4) as (_ & _ & _ & H).
    apply (proj1 (H Hlow Hhigh)).
    exists (-5). repeat split; lia.
  - destruct (serial_raises_on_negative_odd (-2) (-1)) as (_ & _ & _ & H).
    apply (proj2 (H ltac:(lia) ltac:(lia))).
    intros n Hn. assert (n = -2) as -> by lia. right. reflexivity.
  - destruct (serial_raises_on_negative_odd 0 0) as (_ & _ & H & _).
    apply H; [vm_compute; discriminate | vm_compute; reflexivity].
Defined.

(** X2. On a range of numbers from 0 up to the square of [2^53 + 5],
    that square left out, the serial loop returns its list in ascending
    order, and a number is in the list exactly when it lies in the range
    and is 1 or a prime other than 2; so on such a range that starts at 3
    or above the list holds exactly the primes of the range. *)
Theorem serial_primes_are_the_odd_primes (lo hi : Z) :
  0 <= lo -> hi <= (2 ^ 53 + 5) * (2 ^ 53 + 5) ->
  exists l,
    serial_primes lo hi = Ok l
    /\ StronglySorted Z.lt l
    /\ (forall n, In n l <-> lo <= n < hi /\ (n = 1 \/ (n <> 2 /\ Z.prime n)))
    /\ (3 <= lo -> forall n, In n l <-> lo <= n < hi /\ Z.prime n).
Proof.
  intros Hlo Hhi. unfold serial_primes.
  assert (Hfits : (2 ^ 53 + 5) * (2 ^ 53 + 5) <= 2 ^ 1023)
    by (vm_compute; discriminate).
  rewrite (serial_loop_ok _ []
             (nonnegative_range_no_crash lo hi Hlo ltac:(lia))).
  cbn [app]. eexists. split; [reflexivity|].
  assert (Hin : forall n,
             In n (List.filter (fun n => pushes (PyInt n)) (number_range lo hi))
             <-> lo <= n < hi /\ (n = 1 \/ (n <> 2 /\ Z.prime n))).
  { intros n. rewrite List.filter_In, number_range_In. split.
    - intros [Hn Hp]. split; [exact Hn|].
      apply check_prime_accepts; [lia | now apply pushes_check_prime].
    - intros [Hn Hp]. split; [exact Hn|].
      apply pushes_check_prime, check_prime_accepts; [lia | exact Hp]. }
  split; [apply filter_sorted, number_range_sorted|].
  split; [exact Hin|].
  intros H3 n. rewrite Hin. split.
  - intros [Hn [H1 | [_ Hp]]]; [lia | tauto].
  - intros [Hn Hp]. split; [exact Hn|]. right. split; [lia | exact Hp].
Qed.

Lemma serial_primes_are_the_odd_primes_witness :
  exists l,
    serial_primes 90 100 = Ok l
    /\ (forall n, In n l <-> 90 <= n < 100 /\ Z.prime n).
Proof.
  destruct (serial_primes_are_the_odd_primes 90 100 ltac:(lia) ltac:(lia))
    as (l & Hl & _ & _ & Hprimes).
  exists l. split; [exact Hl|]. apply Hprimes. lia.
Defined.

(** ** The [Pool] cell against the serial cell *)





(** ** The [Pool] cell when the processes report in any order *)







(** ** What is reported, at any moment *)

Lemma number_range_NoDup (lo hi : Z) : List.NoDup (number_range lo hi).
Proof.
  pose proof (number_range_sorted lo hi) as Hs.
  induction Hs as [|a l Hs IH Ha]; constructor; [|exact IH].
  intros Hin. rewrite List.Forall_forall in Ha. specialize (Ha a Hin). lia.
Qed.

Lemma pushed_NoDup (lo hi : Z) :
  List.NoDup (List.filter pushes (List.map PyInt (number_range lo hi))).
Proof.
  apply List.NoDup_filter. apply List.NoDup_map_NoDup_ForallPairs.
  - intros a b _ _ [= H]. exact H.
  - apply number_range_NoDup.
Qed.

(** X4. Whatever the interleaving and however far the run has come, the
    list [primes] of the main script holds no value twice, and each of its
    values is a number of the range that [check_prime] accepts; on a range
    that starts at 3 or above and ends at the square of [2^53 + 5] or
    below, each is a prime of the range. *)
Theorem primes_so_far_are_sound (lo hi : Z) (NBR_PROCESSES : nat) (s : state) :
  reachable lo hi NBR_PROCESSES s ->
  List.NoDup (primes_of (main s))
  /\ (forall x, In x (primes_of (main s)) ->
        exists n, x = PyInt n /\ lo <= n < hi /\ check_prime n = Ok true)
  /\ (3 <= lo -> hi <= (2 ^ 53 + 5) * (2 ^ 53 + 5) ->
      forall x, In x (primes_of (main s)) ->
        exists n, x = PyInt n /\ lo <= n < hi /\ Z.prime n).
Proof.
  intros Hr.
  assert (Hsub : exists rest,
             Permutation (primes_of (main s) ++ rest)
               (List.filter pushes (List.map PyInt (number_range lo hi)))).
  { destruct NBR_PROCESSES as [|k].
    - apply reachable_zero in Hr. subst s. cbn [start main primes_of app].
      eexists. reflexivity.
    - pose proof (reachable_invariant lo hi (S k) ltac:(lia) s Hr) as Hinv.
      eexists. exact (inv_perm _ _ _ _ Hinv). }
  destruct Hsub as [rest Hperm].
  assert (Helem : forall x, In x (primes_of (main s)) ->
                    exists n, x = PyInt n /\ lo <= n < hi
                              /\ check_prime n = Ok true).
  { intros x Hx.
    assert (Hin : In x (List.filter pushes (List.map PyInt (number_range lo hi)))).
    { apply (Permutation_in _ Hperm). apply List.in_or_app. now left. }
    apply List.filter_In in Hin. destruct Hin as [Hin Hpush].
    apply List.in_map_iff in Hin. destruct Hin as (n & <- & Hn).
    exists n. split; [reflexivity|]. split; [now apply number_range_In|].
    now apply pushes_check_prime. }
  split; [|split; [exact Helem|]].
  - apply (List.NoDup_app_remove_r _ rest).
    apply (Permutation_NoDup (Permutation_sym Hperm)). apply pushed_NoDup.
  - intros H3 Hhi x Hx. destruct (Helem x Hx) as (n & -> & Hn & Hc).
    exists n. split; [reflexivity|]. split; [exact Hn|].
    apply check_prime_accepts in Hc; [|lia].
    destruct Hc as [H1 | [_ Hp]]; [lia | exact Hp].
Qed.

Lemma primes_so_far_are_sound_witness :
  exists s,
    run 2 (schedule_by 2 [Main; Worker 1; Worker 0] 24 (start 10 20 2))
        (start 10 20 2) = Some s
    /\ main s = CDrain 0 [PyInt 11; PyInt 13]
    /\ List.NoDup [PyInt 11; PyInt 13]
    /\ exists n, PyInt 13 = PyInt n /\ 10 <= n < 20 /\ Z.prime n.
Proof.
  eexists. split; [vm_compute; reflexivity|]. split; [reflexivity|].
  assert (Hlo : 3 <= 10) by lia.
  assert (Hhi : 20 <= (2 ^ 53 + 5) * (2 ^ 53 + 5)) by lia.
  refine ((fun H : _ /\ _ /\ (3 <= 10 -> 20 <= (2 ^ 53 + 5) * (2 ^ 53 + 5) -> _) =>
             conj (proj1 H) (proj2 (proj2 H) Hlo Hhi (PyInt 13) _))
            (primes_so_far_are_sound 10 20 2
               (State _ _ _ (CDrain 0 [PyInt 11; PyInt 13]) _) _)).
  - right. left. reflexivity.
  - exists (schedule_by 2 [Main; Worker 1; Worker 0] 24 (start 10 20 2)).
    reflexivity.
Defined.

(** ** Nothing is left behind in the queues *)

Lemma result_puts_snoc (t : list event) (e : event) :
  result_puts (t ++ [e]) = result_puts t ++ result_puts [e].
Proof. apply List.flat_map_app. Qed.

Lemma result_gets_snoc (t : list event) (e : event) :
  result_gets (t ++ [e]) = result_gets t ++ result_gets [e].
Proof. apply List.flat_map_app. Qed.

Lemma not_finished_flag_false (x : pyobj) :
  py_eq x FLAG_WORKER_FINISHED_PROCESSING = true -> not_finished_flag x = false.
Proof. unfold not_finished_flag, is_flag. now intros ->. Qed.

Lemma not_finished_flag_true (x : pyobj) :
  py_eq x FLAG_WORKER_FINISHED_PROCESSING = false -> not_finished_flag x = true.
Proof. unfold not_finished_flag, is_flag. now intros ->. Qed.

Lemma transition_results_accounted (lo hi : Z) (NBR_PROCESSES : nat)
    (s s' : state) :
  transition NBR_PROCESSES s s' ->
  invariant lo hi NBR_PROCESSES s ->
  results_accounted s -> results_accounted s'.
Proof.
  intros Ht Hinv [Hfifo Hprimes Hcount].
  pose proof (inv_ctl _ _ _ _ Hinv) as Hctl.
  destruct Ht;
    cbn [possible definite processes main trace finished_of primes_of
         control_ok] in *;
    try (exfalso; congruence);
    split;
    cbn [possible definite processes main trace finished_of primes_of];
    rewrite ?result_puts_snoc, ?result_gets_snoc;
    cbn [result_puts result_gets flat_map app];
    rewrite ?app_nil_r, ?List.filter_app, ?countb_app, ?countb_cons, ?countb_nil;
    cbn [List.filter];
    rewrite ?(not_finished_flag_false x), ?(not_finished_flag_true x) by assumption;
    try assumption;
    try (rewrite <- Hfifo; now rewrite <- ?app_assoc);
    try (rewrite <- ?app_assoc; cbn [app]; now rewrite Hfifo);
    try (now rewrite Hprimes, ?app_nil_r);
    try (change (is_flag FLAG_WORKER_FINISHED_PROCESSING x)
           with (py_eq x FLAG_WORKER_FINISHED_PROCESSING);
         match goal with H : py_eq _ _ = _ |- _ => rewrite H end; lia).
Qed.

Lemma run_results_accounted (lo hi : Z) (NBR_PROCESSES : nat)
    (schedule : list actor) (s s' : state) :
  (0 < NBR_PROCESSES)%nat ->
  run NBR_PROCESSES schedule s = Some s' ->
  invariant lo hi NBR_PROCESSES s ->
  results_accounted s -> results_accounted s'.
Proof.
  intros Hpos. revert s. induction schedule as [|a rest IH]; intros s; simpl.
  - now intros [= ->].
  - destruct (step NBR_PROCESSES a s) as [s1|] eqn:Hs; [|discriminate].
    intros Hrun Hinv Hacc. apply step_transition in Hs.
    apply (IH s1 Hrun).
    + eapply transition_invariant; eassumption.
    + eapply transition_results_accounted; eassumption.
Qed.

Lemma reachable_results_accounted (lo hi : Z) (NBR_PROCESSES : nat) (s : state) :
  (0 < NBR_PROCESSES)%nat ->
  reachable lo hi NBR_PROCESSES s -> results_accounted s.
Proof.
  intros Hpos [schedule Hrun].
  eapply (run_results_accounted lo hi); [exact Hpos | exact Hrun | |].
  - now apply start_invariant.
  - rewrite (start_positive lo hi NBR_PROCESSES Hpos). split; reflexivity.
Qed.

(** X5. When the main script is past its [assert], both queues are empty
    and everything that was put has been got, in the order it was put: the
    workers got each candidate of the range once, in ascending order, and
    then the [NBR_PROCESSES] stop flags; the main script got every value
    the workers put on the result queue, [NBR_PROCESSES] of them finished
    flags, and [primes] is the rest of them in the order of arrival. *)
Theorem every_value_is_delivered (lo hi : Z) (NBR_PROCESSES : nat)
    (s : state) (f : nat) (primes : list pyobj) :
  reachable lo hi NBR_PROCESSES s ->
  main s = CComplete f primes ->
  possible s = [] /\ definite s = []
  /\ work_puts (trace s)
     = List.map PyInt (number_range lo hi) ++ repeat FLAG_ALL_DONE NBR_PROCESSES
  /\ work_gets (trace s) = work_puts (trace s)
  /\ result_gets (trace s) = result_puts (trace s)
  /\ primes = List.filter not_finished_flag (result_puts (trace s))
  /\ countb (is_flag FLAG_WORKER_FINISHED_PROCESSING) (result_puts (trace s))
     = NBR_PROCESSES.
Proof.
  intros Hr Hmain.
  destruct (complete_primes _ _ _ _ _ _ Hr Hmain) as (Hpos & Hf & _).
  pose proof (reachable_invariant lo hi NBR_PROCESSES Hpos s Hr) as Hinv.
  destruct (complete_state lo hi NBR_PROCESSES Hpos s f primes Hinv Hmain)
    as (_ & _ & HP & HD & _).
  destruct (reachable_results_accounted lo hi NBR_PROCESSES s Hpos Hr)
    as [Hfifo Hprimes Hcount].
  pose proof (inv_trace _ _ _ _ Hinv) as Htrace.
  pose proof (inv_fifo _ _ _ _ Hinv) as Hwork.
  rewrite Hmain in *. cbn [todo_of stops_left primes_of finished_of] in *.
  rewrite HP in Hwork. rewrite HD in Hfifo.
  cbn [List.map repeat app] in Htrace. rewrite ?app_nil_r in *.
  rewrite <- Hfifo. repeat split; try assumption. congruence.
Qed.

Lemma every_value_is_delivered_witness :
  exists s,
    run 2 overtaking (start 3 6 2) = Some s
    /\ main s = CComplete 2 [PyInt 5; PyInt 3]
    /\ work_gets (trace s)
       = [PyInt 3; PyInt 4; PyInt 5; FLAG_ALL_DONE; FLAG_ALL_DONE]
    /\ result_puts (trace s)
       = [PyInt 5; PyInt 3; FLAG_WORKER_FINISHED_PROCESSING;
          FLAG_WORKER_FINISHED_PROCESSING]
    /\ result_gets (trace s) = result_puts (trace s).
Proof.
  eexists. split; [vm_compute; reflexivity|]. split; [reflexivity|].
  split; [reflexivity|]. split; [reflexivity|].
  refine (proj1 (proj2 (proj2 (proj2 (proj2
            (every_value_is_delivered 3 6 2
               (State _ _ _ (CComplete 2 [PyInt 5; PyInt 3])
                  [Created possible_primes_queue; Created definite_primes_queue;
                   PutEv possible_primes_queue (PyInt 3);
                   PutEv possible_primes_queue (PyInt 4);
                   PutEv possible_primes_queue (PyInt 5);
                   PutEv possible_primes_queue FLAG_ALL_DONE;
                   PutEv possible_primes_queue FLAG_ALL_DONE;
                   GetEv possible_primes_queue (PyInt 3);
                   GetEv possible_primes_queue (PyInt 4);
                   GetEv possible_primes_queue (PyInt 5);
                   PutEv definite_primes_queue (PyInt 5);
                   PutEv definite_primes_queue (PyInt 3);
                   GetEv possible_primes_queue FLAG_ALL_DONE;
                   PutEv definite_primes_queue FLAG_WORKER_FINISHED_PROCESSING;
                   GetEv possible_primes_queue FLAG_ALL_DONE;
                   PutEv definite_primes_queue FLAG_WORKER_FINISHED_PROCESSING;
                   GetEv definite_primes_queue (PyInt 5);
                   GetEv definite_primes_queue (PyInt 3);
                   GetEv definite_primes_queue FLAG_WORKER_FINISHED_PROCESSING;
                   GetEv definite_primes_queue FLAG_WORKER_FINISHED_PROCESSING])
               2%nat _ _ eq_refl)))))).
  exists overtaking. reflexivity.
Defined.

(** ** A worker that dies *)

Lemma crashes_false_of_body (n : pyobj) :
  worker_body n <> Crash -> crashes n = false.
Proof. unfold crashes. destruct (worker_body n); congruence. Qed.

Lemma transition_doomed (NBR_PROCESSES : nat) (s s' : state) :
  transition NBR_PROCESSES s s' -> doomed s -> doomed s'.
Proof.
  intros Ht. unfold doomed.
  destruct Ht; count_norm; cbn [List.map];
    repeat (rewrite Exists_app || rewrite Exists_cons || rewrite Exists_nil);
    try match goal with
        | H : worker_body ?n = _ |- _ =>
            try (assert (crashes n = false)
                   by (apply crashes_false_of_body; congruence))
        end;
    try rewrite crashes_stop;
    intros [Hc | Hex]; try (left; lia); try (right; tauto);
    try (right; intuition congruence).
Qed.

Lemma run_doomed (NBR_PROCESSES : nat) (schedule : list actor) (s s' : state) :
  run NBR_PROCESSES schedule s = Some s' -> doomed s -> doomed s'.
Proof.
  revert s. induction schedule as [|a rest IH]; intros s; simpl.
  - now intros [= ->].
  - destruct (step NBR_PROCESSES a s) as [s1|] eqn:Hs; [|discriminate].
    intros Hrun Hd. apply (IH s1 Hrun).
    eapply transition_doomed; [eapply step_transition|]; eassumption.
Qed.

Lemma countb_crashed_done (ws : list wstate) :
  Forall (fun w => w = WDone) ws -> countb is_crashed ws = 0%nat.
Proof.
  induction 1 as [|w ws Hw _ IH]; [reflexivity|].
  rewrite countb_cons, IH. subst w. reflexivity.
Qed.

Lemma held_done (ws : list wstate) :
  Forall (fun w => w = WDone) ws -> held ws = [].
Proof.
  induction 1 as [|w ws Hw _ IH]; [reflexivity|].
  rewrite held_cons, IH. subst w. reflexivity.
Qed.

Lemma doomed_never_complete (lo hi : Z) (NBR_PROCESSES : nat) (s : state)
    (f : nat) (primes : list pyobj) :
  reachable lo hi NBR_PROCESSES s -> doomed s -> main s <> CComplete f primes.
Proof.
  intros Hr Hd Hmain.
  destruct (complete_primes _ _ _ _ _ _ Hr Hmain) as (Hpos & _ & _).
  pose proof (reachable_invariant lo hi NBR_PROCESSES Hpos s Hr) as Hinv.
  destruct (complete_state lo hi NBR_PROCESSES Hpos s f primes Hinv Hmain)
    as (_ & Hdone & HP & _ & _).
  unfold doomed in Hd.
  rewrite (countb_crashed_done _ Hdone), (held_done _ Hdone), HP, Hmain in Hd.
  cbn [todo_of List.map app] in Hd.
  destruct Hd as [Hc | Hex]; [lia | inversion Hex].
Qed.

Lemma main_step_blocked (NBR_PROCESSES : nat) (s : state) :
  main_step NBR_PROCESSES s = None ->
  (exists f primes, main s = CDrain f primes /\ definite s = [])
  \/ (exists f primes, main s = CComplete f primes)
  \/ (exists e, main s = CRaised e).
Proof.
  unfold main_step.
  destruct (main s) as [[|p todo]|[|k]|f primes|f primes|f primes|e];
    try discriminate; eauto.
  - destruct (definite s) as [|x D]; [eauto|].
    destruct (py_eq x FLAG_WORKER_FINISHED_PROCESSING);
      [destruct (S f =? NBR_PROCESSES)%nat|]; discriminate.
  - destruct (f =? NBR_PROCESSES)%nat; discriminate.
Qed.

Lemma complete_serial_returns (lo hi : Z) (NBR_PROCESSES : nat) (s : state)
    (f : nat) (primes : list pyobj) :
  reachable lo hi NBR_PROCESSES s ->
  main s = CComplete f primes ->
  exists l, serial_primes lo hi = Ok l.
Proof.
  intros Hr Hmain.
  destruct (complete_primes _ _ _ _ _ _ Hr Hmain) as (Hpos & _ & _).
  destruct (serial_primes lo hi) as [l|e] eqn:Hs; [eauto|]. exfalso.
  unfold serial_primes in Hs.
  destruct (serial_loop_raise_inv _ _ _ Hs) as (n & Hn & Hraise).
  apply (doomed_never_complete lo hi NBR_PROCESSES s f primes Hr); [|exact Hmain].
  destruct Hr as [schedule Hrun]. apply (run_doomed _ _ _ _ Hrun).
  right. rewrite (start_positive lo hi NBR_PROCESSES Hpos).
  cbn [main todo_of possible processes]. apply Exists_app. left.
  apply List.Exists_exists. exists (PyInt n). split; [now apply List.in_map|].
  unfold crashes. rewrite worker_body_check_prime, Hraise. reflexivity.
Qed.

(** X6. With at least one worker, the pipeline can finish on a range
    exactly when the serial loop returns on it: if the serial loop returns,
    every run can be continued until the main script is past its [assert];
    if it raises (on a number of the range that makes [math.sqrt] raise),
    no run ever gets there. *)
Theorem pipeline_finishes_iff_serial_returns (lo hi : Z) (NBR_PROCESSES : nat) :
  (0 < NBR_PROCESSES)%nat ->
  ((exists l, serial_primes lo hi = Ok l) ->
   forall s, reachable lo hi NBR_PROCESSES s ->
     exists schedule s' primes,
       run NBR_PROCESSES schedule s = Some s'
       /\ main s' = CComplete NBR_PROCESSES primes)
  /\ ((exists s f primes,
         reachable lo hi NBR_PROCESSES s /\ main s = CComplete f primes)
      <-> exists l, serial_primes lo hi = Ok l).
Proof.
  intros Hpos.
  assert (Hfwd : (exists l, serial_primes lo hi = Ok l) ->
                 forall s, reachable lo hi NBR_PROCESSES s ->
                   exists schedule s' primes,
                     run NBR_PROCESSES schedule s = Some s'
                     /\ main s' = CComplete NBR_PROCESSES primes).
  { intros [l Hl] s Hr. destruct (serial_primes_pushes lo hi l Hl) as [Hok _].
    now apply (can_complete lo hi). }
  split; [exact Hfwd|]. split.
  - intros (s & f & primes & Hr & Hmain).
    now apply (complete_serial_returns lo hi NBR_PROCESSES s f primes).
  - intros Hex.
    destruct (Hfwd Hex (start lo hi NBR_PROCESSES)) as (schedule & s & primes & Hrun & Hm);
      [exists []; reflexivity|].
    exists s, NBR_PROCESSES, primes. split; [exists schedule; exact Hrun | exact Hm].
Qed.

Lemma pipeline_finishes_iff_serial_returns_witness :
  exists schedule s primes,
    run 2 schedule (start 10 20 2) = Some s /\ main s = CComplete 2 primes.
Proof.
  assert (Hpos : (0 < 2)%nat) by lia.
  destruct (pipeline_finishes_iff_serial_returns 10 20 2 Hpos) as [Hfwd _].
  apply Hfwd.
  - exists [11; 13; 17; 19]. reflexivity.
  - exists []. reflexivity.
Defined.

(** X7. Once a worker has died of an exception, the main script never gets
    past its loop, whatever happens next; and when no process can move any
    more, the main script is blocked in [definite_primes_queue.get()] on an
    empty queue, with fewer than [NBR_PROCESSES] finished flags counted. *)
Theorem dead_worker_blocks_main (lo hi : Z) (NBR_PROCESSES : nat)
    (s : state) (schedule : list actor) (s' : state) :
  reachable lo hi NBR_PROCESSES s ->
  (0 < countb is_crashed (processes s))%nat ->
  run NBR_PROCESSES schedule s = Some s' ->
  (0 < countb is_crashed (processes s'))%nat
  /\ (forall f primes, main s' <> CComplete f primes)
  /\ (stuck NBR_PROCESSES s' ->
      exists f primes,
        main s' = CDrain f primes /\ (f < NBR_PROCESSES)%nat
        /\ definite s' = []).
Proof.
  intros Hr Hdead Hrun.
  assert (Hr' : reachable lo hi NBR_PROCESSES s') by (eapply reachable_run; eassumption).
  assert (Hpos : (0 < NBR_PROCESSES)%nat).
  { destruct NBR_PROCESSES; [|lia]. apply reachable_zero in Hr. subst s.
    cbn in Hdead. lia. }
  pose proof (reachable_invariant lo hi NBR_PROCESSES Hpos s' Hr') as Hinv.
  assert (Hd : doomed s') by (apply (run_doomed _ _ _ _ Hrun); now left).
  assert (Hnc : forall f primes, main s' <> CComplete f primes)
    by (intros f primes; now apply (doomed_never_complete lo hi NBR_PROCESSES)).
  assert (Hdead' : (0 < countb is_crashed (processes s'))%nat).
  { clear Hr' Hinv Hd Hnc. revert s Hr Hdead Hrun.
    induction schedule as [|a rest IH]; intros s Hr Hdead; simpl.
    - now intros [= <-].
    - destruct (step NBR_PROCESSES a s) as [s1|] eqn:Hs; [|discriminate].
      intros Hrun. apply (IH s1); [| |exact Hrun].
      + apply (reachable_run lo hi NBR_PROCESSES [a] s); [exact Hr|].
        simpl. now rewrite Hs.
      + apply step_transition in Hs. destruct Hs; count_norm; lia. }
  split; [exact Hdead'|]. split; [exact Hnc|].
  intros Hstuck. pose proof (Hstuck Main) as Hmain. cbn [step] in Hmain.
  destruct (main_step_blocked _ _ Hmain)
    as [(f & primes & Hm & HD) | [(f & primes & Hm) | (e & Hm)]].
  - exists f, primes. split; [exact Hm|]. split; [|exact HD].
    pose proof (inv_ctl _ _ _ _ Hinv) as Hctl. rewrite Hm in Hctl. exact Hctl.
  - exfalso. exact (Hnc f primes Hm).
  - exfalso. exact (never_assertion_error lo hi NBR_PROCESSES s' e Hinv Hm).
Qed.

Lemma dead_worker_blocks_main_witness :
  exists s',
    run 2 (schedule_by 2 [Main; Worker 0; Worker 1] 100 (start (-1) 4 2))
        (start (-1) 4 2) = Some s'
    /\ processes s' = [WCrashed; WDone]
    /\ main s' = CDrain 1 [PyInt 1; PyInt 3]
    /\ forall f primes, main s' <> CComplete f primes.
Proof.
  eexists. split; [vm_compute; reflexivity|]. split; [reflexivity|].
  split; [reflexivity|].
  refine (proj1 (proj2
            (dead_worker_blocks_main (-1) 4 2
               (State _ _ [WCrashed; WGet] (CDrain 0 []) _)
               (skipn 11 (schedule_by 2 [Main; Worker 0; Worker 1] 100
                           (start (-1) 4 2)))
               (State _ _ _ (CDrain 1 [PyInt 1; PyInt 3]) _) _ _ _))).
  - exists (firstn 11 (schedule_by 2 [Main; Worker 0; Worker 1] 100
                        (start (-1) 4 2))).
    reflexivity.
  - cbn. lia.
  - reflexivity.
Defined.

(** ** One worker *)

Lemma single_process (l1 l2 : list wstate) (w : wstate) :
  length (l1 ++ w :: l2) = 1%nat -> l1 = [] /\ l2 = [].
Proof.
  rewrite length_app. cbn [length]. intros H.
  destruct l1; [|cbn [length] in H; lia].
  destruct l2; [|cbn [length] in H; lia]. split; reflexivity.
Qed.

Lemma transition_in_serial_order (lo hi : Z) (s s' : state) :
  transition 1 s s' ->
  invariant lo hi 1 s ->
  in_serial_order lo hi s -> in_serial_order lo hi s'.
Proof.
  intros Ht Hinv. pose proof (inv_len _ _ _ _ Hinv) as Hlen.
  pose proof (inv_ctl _ _ _ _ Hinv) as Hctl. clear Hinv.
  unfold in_serial_order.
  destruct Ht;
    cbn [possible definite processes main trace primes_of todo_of control_ok] in *;
    try (exfalso; congruence);
    try (destruct (single_process _ _ _ Hlen) as [-> ->]);
    body_facts;
    cbn [app held flat_map holds List.map];
    rewrite ?List.filter_app; cbn [List.filter];
    rewrite ?(not_finished_flag_false x), ?(not_finished_flag_true x) by assumption;
    rewrite ?pushes_stop; unfold not_finished_flag;
    rewrite ?is_flag_finished_finished, ?is_flag_finished_int;
    try match goal with H : pushes _ = _ |- _ => rewrite H end;
    cbn [negb app]; rewrite ?app_nil_r; intros Hord;
    rewrite <- Hord; rewrite <- ?app_assoc; cbn [app]; try reflexivity.
  - destruct (pushes (PyInt p)); reflexivity.
  - destruct (pushes n); reflexivity.
Qed.

Lemma run_in_serial_order (lo hi : Z) (schedule : list actor) (s s' : state) :
  run 1 schedule s = Some s' ->
  invariant lo hi 1 s ->
  in_serial_order lo hi s -> in_serial_order lo hi s'.
Proof.
  revert s. induction schedule as [|a rest IH]; intros s; simpl.
  - now intros [= ->].
  - destruct (step 1 a s) as [s1|] eqn:Hs; [|discriminate].
    intros Hrun Hinv Hord. apply step_transition in Hs.
    apply (IH s1 Hrun).
    + eapply transition_invariant; [lia | eassumption | eassumption].
    + eapply transition_in_serial_order; eassumption.
Qed.

(** X8. With one worker nothing overtakes: whenever the main script is
    past its [assert], the serial loop returns on the same range too, and
    [primes] is its list, number by number in the same (ascending)
    order. *)
Theorem one_worker_keeps_the_order (lo hi : Z) (s : state) (f : nat)
    (primes : list pyobj) :
  reachable lo hi 1 s ->
  main s = CComplete f primes ->
  exists l,
    serial_primes lo hi = Ok l
    /\ primes = List.map PyInt l
    /\ StronglySorted Z.lt l.
Proof.
  intros Hr Hmain.
  assert (Hpos : (0 < 1)%nat) by lia.
  destruct (complete_serial_returns lo hi 1 s f primes Hr Hmain) as [l Hl].
  exists l. split; [exact Hl|].
  destruct (serial_primes_pushes lo hi l Hl) as [Hok Hfilter].
  pose proof (reachable_invariant lo hi 1 Hpos s Hr) as Hinv.
  destruct (complete_state lo hi 1 Hpos s f primes Hinv Hmain)
    as (_ & Hdone & HP & HD & _).
  assert (Hord : in_serial_order lo hi s).
  { destruct Hr as [schedule Hrun].
    apply (run_in_serial_order lo hi schedule _ _ Hrun).
    - now apply start_invariant.
    - rewrite (start_positive lo hi 1 Hpos). unfold in_serial_order.
      cbn [main primes_of definite processes possible todo_of held flat_map
           holds repeat List.filter app]. reflexivity. }
  unfold in_serial_order in Hord.
  rewrite Hmain, HP, HD, (held_done _ Hdone) in Hord.
  cbn [primes_of todo_of List.map List.filter app] in Hord.
  rewrite app_nil_r, Hfilter in Hord. split; [exact Hord|].
  unfold serial_primes in Hl. rewrite (serial_loop_ok _ [] Hok) in Hl.
  injection Hl as <-. apply filter_sorted, number_range_sorted.
Qed.

Lemma one_worker_keeps_the_order_witness :
  exists s,
    run 1 (schedule_by 1 [Worker 0; Main] 100 (start 10 20 1)) (start 10 20 1)
    = Some s
    /\ main s = CComplete 1 [PyInt 11; PyInt 13; PyInt 17; PyInt 19]
    /\ exists l, serial_primes 10 20 = Ok l
                 /\ [PyInt 11; PyInt 13; PyInt 17; PyInt 19] = List.map PyInt l.
Proof.
  eexists. split; [vm_compute; reflexivity|]. split; [reflexivity|].
  destruct (one_worker_keeps_the_order 10 20
              (State _ _ _ (CComplete 1 [PyInt 11; PyInt 13; PyInt 17; PyInt 19]) _)
              1%nat _
              (ex_intro _ (schedule_by 1 [Worker 0; Main] 100 (start 10 20 1))
                 eq_refl)
              eq_refl)
    as (l & Hl & Hp & _).
  exists l. split; assumption.
Defined.


(** ** The square root that [check_prime] computes *)

(** X13. [int(math.sqrt(n))] in double precision: for [n] from 0 up to
    [2^52] it is the integer square root; a negative [n] above [-2^1023]
    raises [ValueError]; every [n] from 0 up to [2^1023] gives a value,
    which is below [n] (from 2 on) and which no number below [2^53] with
    a square up to [n] exceeds; an [n] of absolute value [2^1024] or more
    raises [OverflowError].  Past [2^52] the value can be off by one in
    either direction: at [2^52 + 2^27] it is [2^26 + 1], one above the
    integer square root, and at the square of [2^53 + 5] it is
    [2^53 + 4], one below. *)
Theorem int_math_sqrt_in_doubles :
  (forall n, 0 <= n < 2 ^ 52 -> int_math_sqrt n = Ok (Z.sqrt n))
  /\ (forall n, - 2 ^ 1023 < n < 0 -> int_math_sqrt n = Raise ValueError)
  /\ (forall n, 0 <= n < 2 ^ 1023 ->
        exists r,
          int_math_sqrt n = Ok r
          /\ 0 <= r
          /\ (forall d, 1 <= d < 2 ^ 53 -> d * d <= n -> d <= r)
          /\ (2 <= n -> r < n))
  /\ (forall n, 2 ^ 1024 <= Z.abs n -> int_math_sqrt n = Raise OverflowError)
  /\ int_math_sqrt (2 ^ 52 + 2 ^ 27) = Ok (2 ^ 26 + 1)
  /\ Z.sqrt (2 ^ 52 + 2 ^ 27) = 2 ^ 26
  /\ int_math_sqrt ((2 ^ 53 + 5) * (2 ^ 53 + 5)) = Ok (2 ^ 53 + 4)
  /\ Z.sqrt ((2 ^ 53 + 5) * (2 ^ 53 + 5)) = 2 ^ 53 + 5.
Proof.
  split; [exact int_math_sqrt_exact|].
  split; [exact int_math_sqrt_negative|].
  split; [exact int_math_sqrt_bounds|].
  split; [exact int_math_sqrt_overflow|].
  repeat split; vm_compute; reflexivity.
Qed.

Lemma int_math_sqrt_in_doubles_witness :
  int_math_sqrt 100000049 = Ok 10000
  /\ int_math_sqrt (-9) = Raise ValueError
  /\ int_math_sqrt (3 ^ 1000) = Raise OverflowError.
Proof.
  destruct int_math_sqrt_in_doubles as (Hexact & Hneg & _ & Hover & _).
  split; [|split].
  - apply (Hexact 100000049). lia.
  - apply (Hneg (-9)). split; [vm_compute; reflexivity | lia].
  - apply (Hover (3 ^ 1000)). vm_compute. discriminate.
Defined.

(** ** [fib] *)

Lemma fibonacci_step (n : nat) :
  fibonacci (S n) = fibonacci n + fibonacci_before n.
Proof. destruct n as [|m]; reflexivity. Qed.

Lemma fibonacci_nonneg (n : nat) : 0 <= fibonacci n /\ 0 <= fibonacci (S n).
Proof.
  induction n as [|n [IH1 IH2]]; [simpl; lia|].
  split; [exact IH2|]. change (0 <= fibonacci (S n) + fibonacci n). lia.
Qed.

Lemma fibonacci_before_nonneg (n : nat) : 0 <= fibonacci_before n.
Proof. destruct n as [|m]; simpl; [lia | apply (fibonacci_nonneg m)]. Qed.

Lemma fibonacci_mono (n d : nat) : fibonacci n <= fibonacci (n + d).
Proof.
  induction d as [|d IH]; [rewrite Nat.add_0_r; lia|].
  replace (n + S d)%nat with (S (n + d)) by lia.
  rewrite fibonacci_step. pose proof (fibonacci_before_nonneg (n + d)). lia.
Qed.

Lemma fib_loop_fibonacci (steps j : nat) :
  fibonacci (j + steps) <= 2 ^ 53 ->
  fib_loop steps (fibonacci j) (fibonacci_before j)
  = Some (fibonacci (j + steps)).
Proof.
  revert j. induction steps as [|steps IH]; intros j Hbound; simpl.
  - now rewrite Nat.add_0_r.
  - unfold double_add. rewrite <- fibonacci_step.
    replace (j + S steps)%nat with (S j + steps)%nat in * by lia.
    pose proof (fibonacci_mono (S j) steps) as Hmono.
    pose proof (fibonacci_nonneg j) as [_ Hpos].
    destruct (Z.leb_spec (Z.abs (fibonacci (S j))) (2 ^ 53)) as [_|Hbig]; [|lia].
    apply (IH (S j)). exact Hbound.
Qed.

Lemma fib_loop_value (steps j : nat) (v : Z) :
  fib_loop steps (fibonacci j) (fibonacci_before j) = Some v ->
  v = fibonacci (j + steps).
Proof.
  revert j. induction steps as [|steps IH]; intros j; simpl.
  - rewrite Nat.add_0_r. now intros [= <-].
  - unfold double_add. rewrite <- fibonacci_step.
    destruct (Z.abs (fibonacci (S j)) <=? 2 ^ 53); [|discriminate].
    intros H. apply (IH (S j)) in H.
    now replace (j + S steps)%nat with (S j + steps)%nat by lia.
Qed.

Lemma fibonacci_78 : fibonacci 78 = 8944394323791464.
Proof.
  symmetry. apply (fib_loop_value 78 0). vm_compute. reflexivity.
Qed.

Lemma fibonacci_77 : fibonacci 77 = 5527939700884757.
Proof.
  symmetry. apply (fib_loop_value 77 0). vm_compute. reflexivity.
Qed.

(** X9. [fib(n)] returns 0.0 for [n <= 0]; for [n] from 0 to 78 every
    value that [a] and [b] take is a whole number below [2^53], so no sum
    is rounded, and [fib(n)] is the [n]-th Fibonacci number, each being the
    sum of the two before it; the 79th Fibonacci number is above [2^53]. *)
Theorem fib_is_fibonacci (n : Z) :
  (n <= 0 -> fib n = Some 0)
  /\ (0 <= n <= 78 ->
      fib n = Some (fibonacci (Z.to_nat n))
      /\ 0 <= fibonacci (Z.to_nat n) <= 2 ^ 53)
  /\ (0 <= n <= 76 ->
      exists x y z,
        fib n = Some x /\ fib (n + 1) = Some y /\ fib (n + 2) = Some z
        /\ z = y + x)
  /\ 2 ^ 53 < fibonacci 79.
Proof.
  assert (Hbound : forall m, 0 <= m <= 78 -> 0 <= fibonacci (Z.to_nat m) <= 2 ^ 53).
  { intros m Hm. split; [apply (fibonacci_nonneg (Z.to_nat m))|].
    pose proof (fibonacci_mono (Z.to_nat m) (78 - Z.to_nat m)) as Hmono.
    replace (Z.to_nat m + (78 - Z.to_nat m))%nat with 78%nat in Hmono by lia.
    rewrite fibonacci_78 in Hmono. lia. }
  assert (Hfib : forall m, 0 <= m <= 78 -> fib m = Some (fibonacci (Z.to_nat m))).
  { intros m Hm. unfold fib.
    apply (fib_loop_fibonacci (Z.to_nat m) 0). apply (Hbound m Hm). }
  split; [|split; [|split]].
  - intros Hn. unfold fib. replace (Z.to_nat n) with 0%nat by lia. reflexivity.
  - intros Hn. split; [now apply Hfib | now apply Hbound].
  - intros Hn. exists (fibonacci (Z.to_nat n)), (fibonacci (S (Z.to_nat n))),
                      (fibonacci (S (S (Z.to_nat n)))).
    split; [apply Hfib; lia|]. split; [|split; [|reflexivity]].
    + rewrite Hfib by lia. repeat f_equal. lia.
    + rewrite Hfib by lia. repeat f_equal. lia.
  - rewrite (fibonacci_step 78). unfold fibonacci_before.
    rewrite fibonacci_78, fibonacci_77. lia.
Qed.

Lemma fib_is_fibonacci_witness :
  fib (-3) = Some 0 /\ fib 10 = Some 55.
Proof.
  split.
  - apply (proj1 (fib_is_fibonacci (-3))). lia.
  - apply (proj1 (proj1 (proj2 (fib_is_fibonacci 10)) ltac:(lia))).
Defined.

(** ** The Monte Carlo estimate *)

Section MonteCarlo.
Context {rng float : Type}.
Variable uniform : rng -> float * rng.
Variable is_in_unit_circle : float -> float -> bool.

Lemma estimate_loop_from (steps : nat) (count : Z) (g : rng) :
  estimate_loop uniform is_in_unit_circle steps count g
  = (count + fst (estimate_loop uniform is_in_unit_circle steps 0 g),
     snd (estimate_loop uniform is_in_unit_circle steps 0 g)).
Proof.
  revert count g. induction steps as [|steps IH]; intros count g; simpl.
  - f_equal. lia.
  - destruct (uniform g) as [x g1]. destruct (uniform g1) as [y g2].
    rewrite (IH (count + _)), (IH (0 + _)). simpl. f_equal. lia.
Qed.

Lemma estimate_loop_bounds (steps : nat) (g : rng) :
  0 <= fst (estimate_loop uniform is_in_unit_circle steps 0 g) <= Z.of_nat steps.
Proof.
  revert g. induction steps as [|steps IH]; intros g; [simpl; lia|].
  cbn [estimate_loop].
  destruct (uniform g) as [x g1]. destruct (uniform g1) as [y g2].
  rewrite estimate_loop_from. cbn [fst]. specialize (IH g2).
  destruct (is_in_unit_circle x y); cbn [Z.b2z]; lia.
Qed.

Lemma estimate_loop_split (k1 k2 : nat) (g : rng) :
  estimate_loop uniform is_in_unit_circle (k1 + k2) 0 g
  = (fst (estimate_loop uniform is_in_unit_circle k1 0 g)
     + fst (estimate_loop uniform is_in_unit_circle k2 0
              (snd (estimate_loop uniform is_in_unit_circle k1 0 g))),
     snd (estimate_loop uniform is_in_unit_circle k2 0
            (snd (estimate_loop uniform is_in_unit_circle k1 0 g)))).
Proof.
  revert g. induction k1 as [|k1 IH]; intros g.
  - cbn [Nat.add estimate_loop fst snd].
    destruct (estimate_loop uniform is_in_unit_circle k2 0 g). reflexivity.
  - cbn [Nat.add estimate_loop].
    destruct (uniform g) as [x g1]. destruct (uniform g1) as [y g2].
    rewrite (estimate_loop_from (k1 + k2)), (estimate_loop_from k1), IH.
    cbn [fst snd]. f_equal. lia.
Qed.

(** X10. The number of darts counted in the quarter circle lies between 0
    and the number of darts thrown; with a number of estimates of zero or
    less nothing is thrown and the random number generator is left as it
    was; and throwing [n1 + n2] darts counts what throwing [n1] darts and
    then, from where the generator then stands, [n2] darts count
    together. *)
Theorem estimate_counts_add_up (n1 n2 : Z) (g : rng) :
  0 <= fst (estimate_number_points_in_quarter_circle
              uniform is_in_unit_circle n1 g) <= Z.max 0 n1
  /\ (n1 <= 0 ->
      estimate_number_points_in_quarter_circle uniform is_in_unit_circle n1 g
      = (0, g))
  /\ (0 <= n1 -> 0 <= n2 ->
      let first := estimate_number_points_in_quarter_circle
                     uniform is_in_unit_circle n1 g in
      let second := estimate_number_points_in_quarter_circle
                      uniform is_in_unit_circle n2 (snd first) in
      estimate_number_points_in_quarter_circle
        uniform is_in_unit_circle (n1 + n2) g
      = (fst first + fst second, snd second)).
Proof.
  unfold estimate_number_points_in_quarter_circle. split; [|split].
  - pose proof (estimate_loop_bounds (Z.to_nat n1) g). lia.
  - intros Hn. replace (Z.to_nat n1) with 0%nat by lia. reflexivity.
  - intros H1 H2. cbv zeta.
    rewrite Z2Nat.inj_add by assumption. apply estimate_loop_split.
Qed.

(** Below [2^53] the division loses nothing that [int] would keep. *)
Lemma int_true_div_exact (a b : Z) :
  0 <= a < 2 ^ 53 -> 0 < b -> int_true_div a b = Ok (a / b).
Proof.
  intros Ha Hb. unfold int_true_div. rewrite Z.abs_eq by lia.
  pose proof (Z.div_mod a b ltac:(lia)) as Hdm.
  pose proof (Z.mod_pos_bound a b Hb) as Hr.
  assert (Hm0 : 0 <= a / b) by (apply Z.div_pos; lia).
  set (m := a / b) in *. set (r := a mod b) in *.
  assert (H53 : 2 ^ 53 = 9007199254740992) by reflexivity.
  assert (H54 : 2 ^ 54 = 18014398509481984) by reflexivity.
  destruct (Z.eqb_spec m 0) as [E|E].
  - rewrite E in Hdm.
    destruct (Z.leb_spec (b * (2 ^ 54 - 1)) (a * 2 ^ 54)) as [Hup|_];
      [exfalso; lia | f_equal; lia].
  - assert (Hm1 : 1 <= m) by lia.
    assert (Hab : b * m <= a) by lia.
    assert (Hsgn : Z.sgn a = 1) by (apply Z.sgn_pos; nia).
    rewrite Hsgn.
    pose proof (Z.log2_spec m ltac:(lia)) as [Hl1 Hl2].
    pose proof (Z.log2_nonneg m) as Hl0.
    set (l := Z.log2 m) in *.
    assert (Hl : l < 53).
    { destruct (Z_lt_ge_dec l 53) as [Hlt|Hge]; [exact Hlt | exfalso].
      assert (2 ^ 53 <= 2 ^ l) by (apply Z.pow_le_mono_r; lia).
      nia. }
    destruct (Z.ltb_spec (l + 1) 53) as [Hsmall|Hbig].
    + set (h := 2 ^ (54 - (l + 1))).
      assert (Hh : 2 ^ l * h = 2 ^ 53).
      { unfold h. rewrite <- Z.pow_add_r by lia. f_equal. lia. }
      assert (Hh0 : 0 < h) by (apply Z.pow_pos_nonneg; lia).
      assert (Hbh : b < h).
      { destruct (Z_lt_ge_dec b h) as [Hlt|Hge]; [exact Hlt | exfalso].
        assert (2 ^ l * h <= m * b) by (apply Z.mul_le_mono_nonneg; lia).
        lia. }
      destruct (Z.leb_spec (b * ((m + 1) * h - 1)) (a * h)) as [Hup|_];
        [exfalso | f_equal; lia].
      assert (a * h <= (b * m + b - 1) * h)
        by (apply Z.mul_le_mono_nonneg_r; lia).
      nia.
    + assert (l = 52) by lia.
      assert (Hm52 : 2 ^ 52 <= m) by (subst l; congruence || lia).
      assert (b = 1) by nia. subst b.
      assert (r = 0) by lia.
      replace (l + 1 - 53) with 0 by lia. change (2 ^ 0) with 1.
      rewrite Z.div_1_r, !Z.mul_1_r.
      replace (a - m) with 0 by lia.
      change (1 <? 2 * 0) with false. change (2 * 0 =? 1) with false.
      cbn [orb andb].
      assert (2 ^ 53 < 2 ^ 1024) by (vm_compute; reflexivity).
      destruct (Z.leb_spec (2 ^ 1024) m) as [Hover|_]; [lia | f_equal; lia].
Qed.

Lemma py_sum_from (l : list Z) (start : Z) :
  List.fold_left Z.add l start = start + py_sum l.
Proof.
  unfold py_sum. revert start. induction l as [|x l IH]; intros start; simpl.
  - lia.
  - rewrite (IH (start + x)), (IH (0 + x)). lia.
Qed.

Lemma py_sum_cons (x : Z) (l : list Z) : py_sum (x :: l) = x + py_sum l.
Proof. unfold py_sum at 1. simpl. apply py_sum_from. Qed.

Lemma counts_bounds (f : nat -> Z -> Z) (q : Z) (k : nat) :
  (forall task, 0 <= f task q <= q) ->
  length (imap f (repeat q k)) = k
  /\ Forall (fun c => 0 <= c <= q) (imap f (repeat q k))
  /\ 0 <= py_sum (imap f (repeat q k)) <= Z.of_nat k * q.
Proof.
  revert f. induction k as [|k IH]; intros f Hf.
  - cbn. split; [reflexivity|]. split; [constructor | lia].
  - cbn [repeat imap]. rewrite py_sum_cons. cbn [length].
    destruct (IH (f ∘ S) (fun task => Hf (S task))) as (Hlen & Hall & Hsum).
    pose proof (Hf 0%nat) as H0.
    split; [now rewrite Hlen|]. split; [constructor; assumption | lia].
Qed.

(** X11. The pi cells.  With fewer than one block [Pool] raises
    [ValueError].  With at least one block and a total of samples from 0
    up to [2^53]: what [int] makes of the float
    [number_samples_in_total / number_parallel_blocks] is the integer
    quotient; [pool.map] returns one count per block, each between 0 and
    that quotient; so the counts sum to at most [number_samples_in_total],
    and four times the sum is at most four times
    [number_samples_in_total], by which the cell divides. *)
Theorem pi_cell_counts (generator : nat -> rng)
    (number_samples_in_total number_parallel_blocks : Z) :
  (number_parallel_blocks < 1 ->
   number_in_unit_circles uniform is_in_unit_circle generator
     number_samples_in_total number_parallel_blocks = Raise ValueError)
  /\ (0 < number_parallel_blocks ->
      0 <= number_samples_in_total < 2 ^ 53 ->
      int_true_div number_samples_in_total number_parallel_blocks
      = Ok (number_samples_in_total / number_parallel_blocks)
      /\ exists counts,
           number_in_unit_circles uniform is_in_unit_circle generator
             number_samples_in_total number_parallel_blocks = Ok counts
           /\ Z.of_nat (length counts) = number_parallel_blocks
           /\ Forall (fun c =>
                        0 <= c
                        <= number_samples_in_total / number_parallel_blocks)
                     counts
           /\ 0 <= py_sum counts <= number_samples_in_total
           /\ py_sum counts * 4 <= 4 * number_samples_in_total).
Proof.
  unfold number_in_unit_circles. split.
  - intros Hblocks.
    destruct (Z.ltb_spec number_parallel_blocks 1) as [_|H]; [reflexivity | lia].
  - intros Hblocks Htotal.
    pose proof (int_true_div_exact _ _ Htotal Hblocks) as Hdiv.
    split; [exact Hdiv|]. rewrite Hdiv.
    destruct (Z.ltb_spec number_parallel_blocks 1) as [H|_]; [lia|].
    set (per_task := number_samples_in_total / number_parallel_blocks).
    assert (Hper : 0 <= per_task) by (apply Z.div_pos; lia).
    assert (Hall : per_task * number_parallel_blocks <= number_samples_in_total).
    { rewrite Z.mul_comm. apply Z.mul_div_le. exact Hblocks. }
    eexists. split; [reflexivity|].
    destruct (counts_bounds
                (fun task n =>
                   fst (estimate_number_points_in_quarter_circle
                          uniform is_in_unit_circle n (generator task)))
                per_task (Z.to_nat number_parallel_blocks))
      as (Hlen & Hcounts & Hsum).
    { intros task. unfold estimate_number_points_in_quarter_circle.
      pose proof (estimate_loop_bounds (Z.to_nat per_task) (generator task)).
      lia. }
    rewrite Hlen. split; [lia|]. split; [exact Hcounts|].
    rewrite Z2Nat.id in Hsum by lia. lia.
Qed.
End MonteCarlo.

Lemma estimate_counts_add_up_witness :
  estimate_number_points_in_quarter_circle
    (fun g : nat => (g, S g)) (fun x y => Nat.even (x + y)) (2 + 3) 0%nat
  = (0 + 0, 10%nat).
Proof.
  apply (proj2 (proj2 (estimate_counts_add_up
                         (fun g : nat => (g, S g))
                         (fun x y => Nat.even (x + y)) 2 3 0%nat)));
    lia.
Defined.

Lemma pi_cell_counts_witness :
  number_in_unit_circles
    (fun g : nat => (g, S g)) (fun x y => Nat.odd (x + y))
    (fun task => (5 * task)%nat) 10 3 = Ok [3; 3; 3]
  /\ py_sum [3; 3; 3] * 4 <= 4 * 10.
Proof.
  split; [reflexivity|].
  destruct (pi_cell_counts (fun g : nat => (g, S g))
              (fun x y => Nat.odd (x + y)) (fun task => (5 * task)%nat) 10 3)
    as [_ Hcell].
  destruct (Hcell ltac:(lia) ltac:(lia)) as (_ & counts & Hc & _ & _ & _ & H4).
  vm_compute in Hc. injection Hc as <-. exact H4.
Defined.
